(** * pm-merge: the scan / batch / execute / retry loop of [src/index.ts]

    A shallow embedding of the merge worker.  The pure helpers
    ([getRelayerBackoffMs], [checkAndUpdateQuota], [incrementQuota]) are
    functions; the body of [main] threads an explicit [CycleState] and
    appends every externally visible action to a trace.  The collaborators
    the worker talks to (clock, metadata source, balance reader, relay) are
    oracles gathered in [CycleEnv]: nothing is assumed about what they
    answer.

    Numbers: [bigint] values and millisecond timestamps are [Z]; array
    lengths, indices and counters that only ever count are [nat].  The
    JavaScript [number] values that occur here are integers, modelled
    exactly (that is, within the range where double arithmetic is exact). *)

From Stdlib Require Import ZArith List String Ascii Bool Arith Lia.
Import ListNotations.

Local Open Scope string_scope.
Local Open Scope Z_scope.

(* ------------------------------------------------------------------ *)
(** ** Data model ([src/types.ts], [src/config.ts]) *)

Record Config := {
  MERGE_INTERVAL_MS : Z;
  REQUEST_DELAY_MS : Z;
  MIN_MERGE_AMOUNT : Z;        (* bigint, smallest unit *)
  BATCH_SIZE : nat;            (* max transactions per batch *)
  HOURLY_QUOTA_LIMIT : Z       (* max API calls per hour *)
}.

Record MarketMetadata := {
  yesTokenId : string;
  noTokenId : string;
  conditionId : string;
  marketSlug : option string
}.

Record TokenBalance := { yesBalance : Z; noBalance : Z }.

Record MergeCandidate := { market : MarketMetadata; minBalance : Z }.

Record QuotaTracker := { callsThisHour : Z; hourStartTime : Z }.

(** What a [catch (error)] of the retry loop may see: the fields
    [getRelayerBackoffMs] and the exhaustion test read, each optional. *)
Record RelayError := {
  err_status : option Z;           (* err.status *)
  err_data_error : option string;  (* err.data.error *)
  err_error : option string;       (* err.error *)
  err_message : option string      (* err.message *)
}.

(** [response.wait()] resolved to an object. *)
Record RelayResult := { state : string; transactionHash : option string }.

(** The four ways one pass through the [try] block can go, decided by the
    relay: [relayer.execute] rejects; it returns a handle and [wait]
    rejects; [wait] resolves to nothing; [wait] resolves to a result. *)
Inductive AttemptOutcome :=
| ExecuteThrows (e : RelayError)
| WaitThrows (e : RelayError)
| WaitNoResult
| WaitResult (r : RelayResult).

(* ------------------------------------------------------------------ *)
(** ** String helpers used by the error classification *)

Definition isDigit (c : ascii) : bool :=
  let n := nat_of_ascii c in ((48 <=? n) && (n <=? 57))%nat.

(** Canonicalisation of a code unit under the [i] flag: ASCII letters are
    compared through their upper-case form. *)
Definition canonicalize (c : ascii) : ascii :=
  let n := nat_of_ascii c in
  if ((97 <=? n) && (n <=? 122))%nat then ascii_of_nat (n - 32) else c.

Definition charEqCI (a b : ascii) : bool :=
  Ascii.eqb (canonicalize a) (canonicalize b).

(** Case-insensitive equality of two strings, code unit by code unit. *)
Fixpoint equalCI (a b : string) : bool :=
  match a, b with
  | EmptyString, EmptyString => true
  | String x a', String y b' => charEqCI x y && equalCI a' b'
  | _, _ => false
  end.

(** [stripPrefixCI p s]: when [s] starts with [p] up to case, what follows. *)
Fixpoint stripPrefixCI (p s : string) : option string :=
  match p with
  | EmptyString => Some s
  | String x p' =>
      match s with
      | EmptyString => None
      | String y s' => if charEqCI x y then stripPrefixCI p' s' else None
      end
  end.

(** Longest run of decimal digits at the front of [s], and the rest. *)
Fixpoint spanDigits (s : string) : string * string :=
  match s with
  | EmptyString => (EmptyString, EmptyString)
  | String c s' =>
      if isDigit c
      then let (ds, rest) := spanDigits s' in (String c ds, rest)
      else (EmptyString, s)
  end.

Fixpoint allDigits (s : string) : bool :=
  match s with
  | EmptyString => true
  | String c s' => isDigit c && allDigits s'
  end.

(** [Number(ds)] for a string of decimal digits. *)
Fixpoint numberFrom (acc : Z) (ds : string) : Z :=
  match ds with
  | EmptyString => acc
  | String c ds' => numberFrom (10 * acc + (Z.of_nat (nat_of_ascii c) - 48)) ds'
  end.

Definition Number (ds : string) : Z := numberFrom 0 ds.

(** [s.includes(needle)]. *)
Fixpoint includes (needle s : string) : bool :=
  if prefix needle s then true
  else match s with
       | EmptyString => false
       | String _ s' => includes needle s'
       end.

(** The pattern [/resets in (\d+) seconds/i] tried at the front of [s]:
    the captured digits.  [\d+] is greedy; giving digits back can never
    help, because the character after a shorter run is a digit and the
    pattern wants a space there. *)
Definition matchHere (s : string) : option string :=
  match stripPrefixCI "resets in " s with
  | None => None
  | Some r =>
      match spanDigits r with
      | (EmptyString, _) => None
      | (ds, r') =>
          match stripPrefixCI " seconds" r' with
          | Some _ => Some ds
          | None => None
          end
      end
  end.

(** [/resets in (\d+) seconds/i.exec(s)], first capture group: the leftmost
    position at which the pattern matches wins. *)
Fixpoint regexExec (s : string) : option string :=
  match matchHere s with
  | Some ds => Some ds
  | None =>
      match s with
      | EmptyString => None
      | String _ s' => regexExec s'
      end
  end.

(* ------------------------------------------------------------------ *)
(** ** [getRelayerBackoffMs] and the exhaustion test *)

(** [a || b] on an optional string: [undefined] and [''] are falsy. *)
Definition orElse (a : option string) (b : string) : string :=
  match a with
  | Some (String c s) => String c s
  | _ => b
  end.

(** [err?.data?.error || err?.error || err?.message || ''] *)
Definition errorText (e : RelayError) : string :=
  orElse (err_data_error e) (orElse (err_error e) (orElse (err_message e) "")).

Definition getRelayerBackoffMs (e : RelayError) : option Z :=
  match err_status e with
  | Some s =>
      if s =? 429 then
        match regexExec (errorText e) with
        | Some ds => Some ((Number ds + 5) * 1000)
        | None => Some 60000
        end
      else None
  | None => None                      (* [undefined !== 429] *)
  end.

(** [errData?.data?.error?.includes('0 units remaining')], as a condition. *)
Definition isQuotaExhausted (e : RelayError) : bool :=
  match err_data_error e with
  | Some s => includes "0 units remaining" s
  | None => false
  end.

(** [new Error('Relayer returned no result.')] *)
Definition noResultError : RelayError :=
  {| err_status := None; err_data_error := None; err_error := None;
     err_message := Some "Relayer returned no result." |}.

(* ------------------------------------------------------------------ *)
(** ** Quota tracker *)

Definition hourMs : Z := 60 * 60 * 1000.

(** [checkAndUpdateQuota()]: [now] is what [Date.now()] answers and [limit]
    is [CONFIG.HOURLY_QUOTA_LIMIT]; the result is the boolean returned and
    the tracker left behind. *)
Definition checkAndUpdateQuota (limit now : Z) (q : QuotaTracker)
  : bool * QuotaTracker :=
  let q1 :=
    if hourMs <=? now - hourStartTime q
    then {| callsThisHour := 0; hourStartTime := now |}
    else q in
  if limit <=? callsThisHour q1 then (false, q1) else (true, q1).

(** [incrementQuota()] *)
Definition incrementQuota (q : QuotaTracker) : QuotaTracker :=
  {| callsThisHour := callsThisHour q + 1; hourStartTime := hourStartTime q |}.

(** [quotaTracker.callsThisHour = CONFIG.HOURLY_QUOTA_LIMIT] *)
Definition markExhausted (limit : Z) (q : QuotaTracker) : QuotaTracker :=
  {| callsThisHour := limit; hourStartTime := hourStartTime q |}.

(** The tracker as the module creates it, [t0] being [Date.now()] then. *)
Definition initialQuota (t0 : Z) : QuotaTracker :=
  {| callsThisHour := 0; hourStartTime := t0 |}.

(* ------------------------------------------------------------------ *)
(** ** Phase 1: scanning balances *)

Record ScanResult := {
  candidates : list MergeCandidate;
  skippedZero : nat;
  skippedBelowMin : nat
}.

Definition emptyScan : ScanResult :=
  {| candidates := []; skippedZero := 0; skippedBelowMin := 0 |}.

Section Scan.
Variable minMergeAmount : Z.
(** [getTokenBalances(publicClient, proxy, market)]; [None] when the
    read (or the conversion of a token id) throws. *)
Variable getTokenBalances : MarketMetadata -> option TokenBalance.

(** One pass through the body of [for (const market of markets)]. *)
Definition scanMarket (acc : ScanResult) (m : MarketMetadata) : ScanResult :=
  match getTokenBalances m with
  | None => acc                                   (* caught and logged *)
  | Some balances =>
      let minBal :=
        if yesBalance balances <? noBalance balances
        then yesBalance balances else noBalance balances in
      if minBal =? 0 then
        {| candidates := candidates acc;
           skippedZero := S (skippedZero acc);
           skippedBelowMin := skippedBelowMin acc |}
      else if minBal <? minMergeAmount then
        {| candidates := candidates acc;
           skippedZero := skippedZero acc;
           skippedBelowMin := S (skippedBelowMin acc) |}
      else
        {| candidates :=
             candidates acc ++ [ {| market := m; minBalance := minBal |} ];
           skippedZero := skippedZero acc;
           skippedBelowMin := skippedBelowMin acc |}
  end.

Definition scanMarkets (markets : list MarketMetadata) : ScanResult :=
  fold_left scanMarket markets emptyScan.
End Scan.

(* ------------------------------------------------------------------ *)
(** ** Phase 2: batching *)

(** [xs.slice(i, j)] for [0 <= i <= j]. *)
Definition slice {A : Type} (xs : list A) (i j : nat) : list A :=
  firstn (j - i) (skipn i xs).

(** [Math.floor(i / size) + 1] *)
Definition batchNumber (size i : nat) : nat := (i / size + 1)%nat.

(** [Math.ceil(n / size)] *)
Definition totalBatches (size n : nat) : nat := ((n + size - 1) / size)%nat.

(** "split the sequence into contiguous chunks of at most maxBatchSize
    elements, preserving order": chunk [k] is the slice that starts at
    [k * size], for each of the [Math.ceil(n / size)] chunks. *)
Definition spec_batches {A : Type} (size : nat) (xs : list A) : list (list A) :=
  map (fun k => slice xs (k * size) (k * size + size))%nat
      (seq 0 (totalBatches size (List.length xs))).

(* ------------------------------------------------------------------ *)
(** ** State and trace of one cycle *)

Inductive Event :=
| EvQuota (q : QuotaTracker)             (* [quotaTracker] after a call that may write it *)
| EvExecute (batchNum : nat) (batch : list MergeCandidate)
                                         (* [relayer.execute] called *)
| EvSleep (ms : Z)                       (* [await sleep(ms)] *)
| EvScanComplete (eligible zero belowMin : nat)   (* 'Scan complete: ...' *)
| EvCycleComplete (merged errors : nat)           (* 'Merge cycle complete: ...' *)
| EvBatch (batchNum total : nat) (batch : list MergeCandidate)
                                         (* 'Batch n/total (k transactions):' *)
| EvCycleError.                          (* 'Error in merge cycle:' *)

Record CycleState := {
  quotaTracker : QuotaTracker;   (* the module-level tracker *)
  mergedCount : nat;
  errorCount : nat;
  trace : list Event             (* oldest first *)
}.

Definition emit (ev : Event) (st : CycleState) : CycleState :=
  {| quotaTracker := quotaTracker st; mergedCount := mergedCount st;
     errorCount := errorCount st; trace := (trace st ++ [ev])%list |}.

Definition setQuota (q : QuotaTracker) (st : CycleState) : CycleState :=
  {| quotaTracker := q; mergedCount := mergedCount st;
     errorCount := errorCount st; trace := (trace st ++ [EvQuota q])%list |}.

Definition addMerged (n : nat) (st : CycleState) : CycleState :=
  {| quotaTracker := quotaTracker st; mergedCount := (mergedCount st + n)%nat;
     errorCount := errorCount st; trace := trace st |}.

Definition addErrors (n : nat) (st : CycleState) : CycleState :=
  {| quotaTracker := quotaTracker st; mergedCount := mergedCount st;
     errorCount := (errorCount st + n)%nat; trace := trace st |}.

Definition startOfCycle (q : QuotaTracker) : CycleState :=
  {| quotaTracker := q; mergedCount := 0; errorCount := 0; trace := [] |}.

(** How one pass through a [catch] block leaves the [while] loop body. *)
Inductive Flow := Break | Continue.

Definition maxAttempts : nat := 3.

(* ------------------------------------------------------------------ *)
(** ** Execution of one batch, with retry *)

Section Engine.
Variable cfg : Config.
Variable batchNum : nat.
Variable batch : list MergeCandidate.
(** What the relay does with the [k]-th submission of this batch. *)
Variable relayer : nat -> AttemptOutcome.

(** The [try] block.  [None]: it ran to its [break]; [Some e]: it threw
    [e].  [incrementQuota()] sits after [await relayer.execute(...)], so
    it runs only when that call returned. *)
Definition tryBlock (o : AttemptOutcome) (st : CycleState)
  : CycleState * option RelayError :=
  let st1 := emit (EvExecute batchNum batch) st in
  let counted := setQuota (incrementQuota (quotaTracker st1)) st1 in
  match o with
  | ExecuteThrows e => (st1, Some e)
  | WaitThrows e => (counted, Some e)
  | WaitNoResult => (counted, Some noResultError)
  | WaitResult _ => (addMerged (List.length batch) counted, None)
  end.

(** The [catch] block, [attempts] being the counter after [attempts++]. *)
Definition catchBlock (attempts : nat) (e : RelayError) (st : CycleState)
  : CycleState * Flow :=
  match getRelayerBackoffMs e with
  | Some backoffMs =>
      if isQuotaExhausted e then
        (addErrors (List.length batch)
           (setQuota (markExhausted (HOURLY_QUOTA_LIMIT cfg) (quotaTracker st)) st),
         Break)
      else if (attempts <? maxAttempts)%nat then
        (emit (EvSleep backoffMs) st, Continue)
      else (addErrors (List.length batch) st, Break)
  | None => (addErrors (List.length batch) st, Break)
  end.

(** [while (attempts < maxAttempts) { try {...} catch {...} }].
    [None]: out of fuel. *)
Fixpoint retryLoop (fuel attempts : nat) (st : CycleState)
  : option CycleState :=
  if (attempts <? maxAttempts)%nat then
    match fuel with
    | O => None
    | S fuel' =>
        match tryBlock (relayer attempts) st with
        | (st1, None) => Some st1
        | (st1, Some e) =>
            match catchBlock (S attempts) e st1 with
            | (st2, Break) => Some st2
            | (st2, Continue) => retryLoop fuel' (S attempts) st2
            end
        end
    end
  else Some st.

Definition executeBatch (st : CycleState) : option CycleState :=
  retryLoop maxAttempts 0 st.
End Engine.

(* ------------------------------------------------------------------ *)
(** ** Building the transactions of a batch ([src/ctf.ts], [main]) *)

Definition CTF_ADDRESS : string := "0x4D97DCd97eC945f40cF65F87097ACe5EA0476045".
Definition USDC_ADDRESS : string := "0x2791Bca1f2de4661ED88A30C99A7a9449Aa84174".
Definition PARENT_COLLECTION_ID : string :=
  "0x0000000000000000000000000000000000000000000000000000000000000000".
Definition PARTITION : list Z := [1; 2].

Record Transaction := { tx_to : string; tx_data : string; tx_value : string }.

Section BuildBatch.
(** [encodeFunctionData] for [mergePositions]: collateral token, parent
    collection id, condition id, partition, amount.  [None]: it throws (the
    condition id is not a 32-byte hex string, say). *)
Variable encodeMergePositions :
  string -> string -> string -> list Z -> Z -> option string.

(** [market.marketSlug || market.conditionId.slice(0, 10)] *)
Definition marketName (m : MarketMetadata) : string :=
  orElse (marketSlug m) (substring 0 10 (conditionId m)).

(** One pass through the body of [for (const { market, minBalance } of batch)]:
    the two arrays after their [push], or [None] once a pass has thrown. *)
Definition buildStep (acc : option (list Transaction * list string))
    (c : MergeCandidate) : option (list Transaction * list string) :=
  match acc with
  | None => None
  | Some (transactions, batchMarketNames) =>
      match encodeMergePositions USDC_ADDRESS PARENT_COLLECTION_ID
              (conditionId (market c)) PARTITION (minBalance c) with
      | None => None
      | Some data =>
          Some ((transactions
                 ++ [ {| tx_to := CTF_ADDRESS; tx_data := data; tx_value := "0" |} ])%list,
                (batchMarketNames ++ [ marketName (market c) ])%list)
      end
  end.

(** [transactions] and [batchMarketNames] for a batch; [None]: building
    them threw. *)
Definition buildBatch (batch : list MergeCandidate)
  : option (list Transaction * list string) :=
  fold_left buildStep batch (Some ([], [])).
End BuildBatch.

(* ------------------------------------------------------------------ *)
(** ** One cycle of the merge loop, and the loop *)

(** What the outside world answers during one cycle. *)
Record CycleEnv := {
  nowAtStart : Z;                 (* [Date.now()] in the check opening the cycle *)
  fetchMarkets : option (list MarketMetadata);   (* [None]: it throws *)
  readBalances : MarketMetadata -> option TokenBalance;
  nowAtBatch : nat -> Z;          (* [Date.now()] in the check before batch [n] *)
  relay : nat -> nat -> AttemptOutcome;  (* batch number, submissions so far *)
  encoder : string -> string -> string -> list Z -> Z -> option string
                                  (* [encodeFunctionData] for [mergePositions] *)
}.

(** How the batch loop is left: it ran to its end or to a [break], or the
    building of a batch threw. *)
Inductive LoopEnd :=
| Completed (st : CycleState)
| Threw (st : CycleState).

Definition endState (e : LoopEnd) : CycleState :=
  match e with
  | Completed st => st
  | Threw st => st
  end.

Section Cycle.
Variable cfg : Config.
Variable env : CycleEnv.

(** [checkAndUpdateQuota()] on the state. *)
Definition checkQuota (now : Z) (st : CycleState) : bool * CycleState :=
  let (ok, q) := checkAndUpdateQuota (HOURLY_QUOTA_LIMIT cfg) now (quotaTracker st) in
  (ok, setQuota q st).

(** [for (let i = 0; i < candidates.length; i += CONFIG.BATCH_SIZE)],
    entered at index [i].  Building the transactions of a batch is outside
    the [try] of the retry loop: when it throws, the loop is left for the
    [catch] of the cycle.  [None]: out of fuel. *)
Fixpoint batchLoop (cands : list MergeCandidate) (fuel i : nat)
    (st : CycleState) : option LoopEnd :=
  if (i <? List.length cands)%nat then
    match fuel with
    | O => None
    | S fuel' =>
        let batchNum := batchNumber (BATCH_SIZE cfg) i in
        match checkQuota (nowAtBatch env batchNum) st with
        | (false, st1) => Some (Completed st1)          (* break *)
        | (true, st1) =>
            let batch := slice cands i (i + BATCH_SIZE cfg) in
            let total := totalBatches (BATCH_SIZE cfg) (List.length cands) in
            let st1 := emit (EvBatch batchNum total batch) st1 in
            match buildBatch (encoder env) batch with
            | None => Some (Threw st1)
            | Some _ =>
                match executeBatch cfg batchNum batch (relay env batchNum) st1 with
                | None => None
                | Some st2 =>
                    let st3 :=
                      if (i + BATCH_SIZE cfg <? List.length cands)%nat
                      then emit (EvSleep (REQUEST_DELAY_MS cfg)) st2
                      else st2 in
                    batchLoop cands fuel' (i + BATCH_SIZE cfg) st3
                end
            end
        end
    end
  else Some (Completed st).

(** The body of [while (!isShuttingDown)], sleep included. *)
Definition cycle (q : QuotaTracker) : option CycleState :=
  let interval := EvSleep (MERGE_INTERVAL_MS cfg) in
  match checkQuota (nowAtStart env) (startOfCycle q) with
  | (false, st1) => Some (emit interval st1)
  | (true, st1) =>
      match fetchMarkets env with
      | None => Some (emit interval (emit EvCycleError st1))   (* outer [catch] *)
      | Some markets =>
          let r := scanMarkets (MIN_MERGE_AMOUNT cfg) (readBalances env) markets in
          let st2 :=
            emit (EvScanComplete (List.length (candidates r))
                    (skippedZero r) (skippedBelowMin r)) st1 in
          if (List.length (candidates r) =? 0)%nat then Some (emit interval st2)
          else
            match batchLoop (candidates r) (List.length (candidates r)) 0 st2 with
            | None => None
            | Some (Completed st3) =>
                Some (emit interval
                        (emit (EvCycleComplete (mergedCount st3) (errorCount st3)) st3))
            | Some (Threw st3) =>
                Some (emit interval (emit EvCycleError st3))   (* outer [catch] *)
            end
      end
  end.
End Cycle.

(** The merge loop over the cycles the process lives through: the tracker it
    ends with and everything it did. *)
Fixpoint mainLoop (cfg : Config) (envs : list CycleEnv) (q : QuotaTracker)
  : option (QuotaTracker * list Event) :=
  match envs with
  | [] => Some (q, [])
  | env :: rest =>
      match cycle cfg env q with
      | None => None
      | Some st =>
          match mainLoop cfg rest (quotaTracker st) with
          | None => None
          | Some (q', tr) => Some (q', (trace st ++ tr)%list)
          end
      end
  end.

(** Projections of a trace. *)
Definition quotaStates (tr : list Event) : list QuotaTracker :=
  flat_map (fun ev => match ev with EvQuota q => [q] | _ => [] end) tr.

Definition executedBatches (tr : list Event) : list (nat * list MergeCandidate) :=
  flat_map (fun ev => match ev with EvExecute n b => [(n, b)] | _ => [] end) tr.

Definition formedBatches (tr : list Event) : list (list MergeCandidate) :=
  flat_map (fun ev => match ev with EvBatch _ _ b => [b] | _ => [] end) tr.

(** How the cycles of a trace ended: with the summary line or in the outer
    [catch]. *)
Definition cycleEnds (tr : list Event) : list Event :=
  flat_map (fun ev => match ev with
                      | EvCycleComplete _ _ => [ev]
                      | EvCycleError => [ev]
                      | _ => []
                      end) tr.

Definition sleeps (tr : list Event) : list Z :=
  flat_map (fun ev => match ev with EvSleep ms => [ms] | _ => [] end) tr.


(* ------------------------------------------------------------------ *)
(** ** The specification's wording, for comparison with the code *)

(** "mergeableAmount = min(balanceA, balanceB)" *)
Definition spec_mergeableAmount (b : TokenBalance) : Z :=
  Z.min (yesBalance b) (noBalance b).

(** "eligible iff mergeableAmount > 0 and mergeableAmount >= minimumMergeAmount" *)
Definition spec_eligible (minimum amount : Z) : bool :=
  (0 <? amount) && (minimum <=? amount).

(** The candidates the specification expects from a scan, in input order. *)
Definition spec_candidates (minimum : Z)
    (read : MarketMetadata -> option TokenBalance)
    (markets : list MarketMetadata) : list MergeCandidate :=
  flat_map
    (fun m =>
       match read m with
       | Some b =>
           if spec_eligible minimum (spec_mergeableAmount b)
           then [ {| market := m; minBalance := spec_mergeableAmount b |} ]
           else []
       | None => []
       end) markets.

(** Descriptors read with a mergeable amount of zero. *)
Definition spec_zero (read : MarketMetadata -> option TokenBalance)
    (m : MarketMetadata) : bool :=
  match read m with
  | Some b => spec_mergeableAmount b =? 0
  | None => false
  end.

(** Descriptors read with [0 < amount < minimum]. *)
Definition spec_belowMin (minimum : Z)
    (read : MarketMetadata -> option TokenBalance) (m : MarketMetadata) : bool :=
  match read m with
  | Some b => (0 <? spec_mergeableAmount b) && (spec_mergeableAmount b <? minimum)
  | None => false
  end.

(** Descriptors whose balance read failed. *)
Definition readFailed (read : MarketMetadata -> option TokenBalance)
    (m : MarketMetadata) : bool :=
  match read m with
  | Some _ => false
  | None => true
  end.

(** "each candidate in a processed batch is counted in exactly one of
    mergedCount or errorCount": with one outcome per processed batch
    ([true]: the batch went to the merged count, [false]: to the error
    count), the candidates of the batches with the given outcome. *)
Definition countedIn (outcome : bool) (outs : list bool)
    (bs : list (list MergeCandidate)) : list MergeCandidate :=
  List.concat
    (map snd (filter (fun ob => Bool.eqb (fst ob) outcome) (combine outs bs))).

Definition count {A : Type} (p : A -> bool) (xs : list A) : nat :=
  List.length (filter p xs).

(** "a reset hint of the form 'resets in N seconds'": [msg] reads [pre],
    then the words (in any letter case) around a non-empty run of decimal
    digits [ds], then [post]. *)
Definition HintAt (msg pre ds post : string) : Prop :=
  exists r s,
    msg = (pre ++ r ++ ds ++ s ++ post)%string
    /\ equalCI "resets in " r = true
    /\ ds <> EmptyString /\ allDigits ds = true
    /\ equalCI " seconds" s = true.




(** [balanceOf] returns a [uint256]: what a reader can answer is unsigned. *)
Definition nonnegReads (read : MarketMetadata -> option TokenBalance)
    (markets : list MarketMetadata) : Prop :=
  forall m b, In m markets -> read m = Some b ->
    0 <= yesBalance b /\ 0 <= noBalance b.

(* ------------------------------------------------------------------ *)
(** ** Hexadecimal strings *)

Definition isHexDigit (c : ascii) : bool :=
  let n := nat_of_ascii c in
  (((48 <=? n) && (n <=? 57)) || ((97 <=? n) && (n <=? 102))
   || ((65 <=? n) && (n <=? 70)))%nat.

Fixpoint allHex (s : string) : bool :=
  match s with
  | EmptyString => true
  | String c s' => isHexDigit c && allHex s'
  end.

(** [/^[0-9a-fA-F]{64}$/.test(s)] *)
Definition is64Hex (s : string) : bool :=
  (String.length s =? 64)%nat && allHex s.

(** "0x" followed by hexadecimal digits only: what a strict [isHex] of the
    Ethereum library is expected to accept. *)
Definition isHexStrict (s : string) : bool :=
  match s with
  | String "0" (String "x" digits) => allHex digits
  | _ => false
  end.

(* ------------------------------------------------------------------ *)
(** ** Sample inputs *)

Definition sampleMarket (id : string) : MarketMetadata :=
  {| yesTokenId := "1"; noTokenId := "2"; conditionId := id; marketSlug := None |}.

(** Balances (5, 3) for market "a", (0, 7) for "b", (20, 15) for "c"; every
    other read fails. *)
Definition sampleRead (m : MarketMetadata) : option TokenBalance :=
  if String.eqb (conditionId m) "a" then Some {| yesBalance := 5; noBalance := 3 |}
  else if String.eqb (conditionId m) "b" then Some {| yesBalance := 0; noBalance := 7 |}
  else if String.eqb (conditionId m) "c" then Some {| yesBalance := 20; noBalance := 15 |}
  else None.

Definition sampleCandidate (id : string) (amount : Z) : MergeCandidate :=
  {| market := sampleMarket id; minBalance := amount |}.

(** A market with a 32-byte condition id, holding balances (20, 15). *)
Definition heldConditionId : string :=
  "0x1111111111111111111111111111111111111111111111111111111111111111".

Definition heldMarket : MarketMetadata :=
  {| yesTokenId := "1"; noTokenId := "2"; conditionId := heldConditionId;
     marketSlug := None |}.

Definition heldCandidate : MergeCandidate :=
  {| market := heldMarket; minBalance := 15 |}.

(** A second market of the same kind. *)
Definition otherConditionId : string :=
  "0x3333333333333333333333333333333333333333333333333333333333333333".

Definition otherMarket : MarketMetadata :=
  {| yesTokenId := "7"; noTokenId := "8"; conditionId := otherConditionId;
     marketSlug := None |}.

Definition otherCandidate : MergeCandidate :=
  {| market := otherMarket; minBalance := 15 |}.

(** A market with a 32-byte condition id whose balances cannot be read. *)
Definition unreadableMarket : MarketMetadata :=
  {| yesTokenId := "3"; noTokenId := "4";
     conditionId := "0x2222222222222222222222222222222222222222222222222222222222222222";
     marketSlug := None |}.

(** A market whose stored condition id is not a 32-byte hex string, holding
    balances (20, 15) all the same. *)
Definition malformedMarket : MarketMetadata :=
  {| yesTokenId := "5"; noTokenId := "6"; conditionId := "c"; marketSlug := None |}.

Definition heldRead (m : MarketMetadata) : option TokenBalance :=
  if String.eqb (conditionId m) heldConditionId
     || String.eqb (conditionId m) otherConditionId
     || String.eqb (conditionId m) "c"
  then Some {| yesBalance := 20; noBalance := 15 |}
  else None.

(** An encoder that accepts a condition id of exactly 32 bytes in hex and
    throws on anything else. *)
Definition bytes32Encoder (collateral parent condition : string)
    (partition : list Z) (amount : Z) : option string :=
  if isHexStrict condition && (String.length condition =? 66)%nat
  then Some ("mergePositions " ++ condition)%string
  else None.

(** A relay error [{ status: 429, data: { error: text } }]. *)
Definition rateLimited (text : string) : RelayError :=
  {| err_status := Some 429; err_data_error := Some text;
     err_error := None; err_message := None |}.

(** A relay error [{ status: 429, message: text }], without [data]. *)
Definition rateLimitedMessage (text : string) : RelayError :=
  {| err_status := Some 429; err_data_error := None;
     err_error := None; err_message := Some text |}.

(* ------------------------------------------------------------------ *)
(** ** Vocabulary for statements about attempts *)

(** What the [try] block throws on an outcome, if it throws. *)
Definition thrown (o : AttemptOutcome) : option RelayError :=
  match o with
  | ExecuteThrows e => Some e
  | WaitThrows e => Some e
  | WaitNoResult => Some noResultError
  | WaitResult _ => None
  end.

(** [relayer.execute] returned a handle. *)
Definition accepted (o : AttemptOutcome) : bool :=
  match o with
  | ExecuteThrows _ => false
  | _ => true
  end.

(** The submission raised a rate-limit error (status 429) that does not
    report the quota as used up. *)
Definition rateLimitedOnly (o : AttemptOutcome) : Prop :=
  exists e, thrown o = Some e
            /\ err_status e = Some 429 /\ isQuotaExhausted e = false.

(** The submission raised a rate-limit error whose [data.error] holds
    "0 units remaining". *)
Definition reportsExhausted (o : AttemptOutcome) : Prop :=
  exists e, thrown o = Some e
            /\ err_status e = Some 429 /\ isQuotaExhausted e = true.

Definition sampleConfig : Config :=
  {| MERGE_INTERVAL_MS := 1800000; REQUEST_DELAY_MS := 5000;
     MIN_MERGE_AMOUNT := 10; BATCH_SIZE := 10; HOURLY_QUOTA_LIMIT := 20 |}.

(** A result whose state reports that the transaction failed on chain. *)
Definition failedOnChain : RelayResult :=
  {| state := "STATE_FAILED"; transactionHash := None |}.

(** One candidate per batch, otherwise as [sampleConfig]. *)
Definition singleConfig : Config :=
  {| MERGE_INTERVAL_MS := 1800000; REQUEST_DELAY_MS := 5000;
     MIN_MERGE_AMOUNT := 10; BATCH_SIZE := 1; HOURLY_QUOTA_LIMIT := 20 |}.

(** Two eligible markets.  The check before batch 1 is made 5 s before the
    hour window (started at 0) runs out and passes; the relay answers the
    only submission of batch 1 with 429 "0 units remaining"; the check
    before batch 2 comes after the inter-batch delay, when the window is
    over; the relay then accepts batch 2. *)
Definition rolloverEnv : CycleEnv :=
  {| nowAtStart := 3590000;
     fetchMarkets := Some [heldMarket; otherMarket];
     readBalances := heldRead;
     nowAtBatch := fun n => if (n =? 1)%nat then 3595000 else 3600000;
     relay := fun n _ =>
                if (n =? 1)%nat
                then ExecuteThrows (rateLimited "quota exceeded, 0 units remaining")
                else WaitResult {| state := "STATE_CONFIRMED"; transactionHash := None |};
     encoder := bytes32Encoder |}.

(** Every clock reading is 1000 and the relay rejects every submission with
    429 "0 units remaining" in [data.error]. *)
Definition exhaustedEnv : CycleEnv :=
  {| nowAtStart := 1000;
     fetchMarkets := Some [heldMarket; otherMarket];
     readBalances := heldRead;
     nowAtBatch := fun _ => 1000;
     relay := fun _ _ =>
                ExecuteThrows (rateLimited "quota exceeded, 0 units remaining");
     encoder := bytes32Encoder |}.

(** Every value the tracker has taken along a run stays at or below [bound]. *)
Definition QuotaWithin (bound : Z) (st : CycleState) : Prop :=
  callsThisHour (quotaTracker st) <= bound
  /\ Forall (fun q => callsThisHour q <= bound) (quotaStates (trace st)).

(** No submission that [relayer.execute] accepted is answered, by [wait],
    with a rate-limit error that makes the engine submit again. *)
Definition NoRetryAfterAccept (relayer : nat -> AttemptOutcome) : Prop :=
  forall k, accepted (relayer k) = true -> ~ rateLimitedOnly (relayer k).

(** An hourly limit of 1 and one candidate per batch. *)
Definition tightConfig : Config :=
  {| MERGE_INTERVAL_MS := 1800000; REQUEST_DELAY_MS := 5000;
     MIN_MERGE_AMOUNT := 10; BATCH_SIZE := 1; HOURLY_QUOTA_LIMIT := 1 |}.

(** One eligible market.  The relay accepts the first submission, then
    answers the wait with a plain 429; it accepts the second submission and
    resolves it. *)
Definition retryAfterAcceptEnv : CycleEnv :=
  {| nowAtStart := 1000;
     fetchMarkets := Some [heldMarket];
     readBalances := heldRead;
     nowAtBatch := fun _ => 2000;
     relay := fun _ k =>
                if (k =? 0)%nat
                then WaitThrows (rateLimited "resets in 1 seconds")
                else WaitResult {| state := "STATE_CONFIRMED"; transactionHash := None |};
     encoder := bytes32Encoder |}.

(** One market, whose balance read fails. *)
Definition failedReadEnv : CycleEnv :=
  {| nowAtStart := 1000;
     fetchMarkets := Some [unreadableMarket];
     readBalances := heldRead;
     nowAtBatch := fun _ => 2000;
     relay := fun _ _ => WaitNoResult;
     encoder := bytes32Encoder |}.


(** Twenty-three eligible markets and a relay that resolves every
    submission. *)
Definition twentyThreeEnv : CycleEnv :=
  {| nowAtStart := 1000;
     fetchMarkets := Some (repeat heldMarket 23);
     readBalances := heldRead;
     nowAtBatch := fun _ => 2000;
     relay := fun _ _ => WaitResult {| state := "STATE_CONFIRMED";
                                        transactionHash := None |};
     encoder := bytes32Encoder |}.


(** An event that is not a write of the tracker. *)
Ltac not_a_write := let q := fresh in let E := fresh in intros q E; discriminate E.

(* ------------------------------------------------------------------ *)
(** ** Further sample inputs *)

(** A relay error [{ status: 500, data: { error: text } }]. *)
Definition serverError (text : string) : RelayError :=
  {| err_status := Some 500; err_data_error := Some text;
     err_error := None; err_message := None |}.

(* ------------------------------------------------------------------ *)
(** ** Putting two scan results side by side *)

(** The result of scanning one list after another: candidates in order,
    skip counts added. *)
Definition appendScans (a b : ScanResult) : ScanResult :=
  {| candidates := (candidates a ++ candidates b)%list;
     skippedZero := (skippedZero a + skippedZero b)%nat;
     skippedBelowMin := (skippedBelowMin a + skippedBelowMin b)%nat |}.

(* ------------------------------------------------------------------ *)
(** ** The Redis client and the metadata source ([src/redis.ts]) *)

Module RedisClient.

(** The module-level [redisClient], with two counters that record how many
    connections [new Redis(...)] has opened and [quit()] has closed.  A
    client is named by the number of connections opened before it. *)
Record RedisState := {
  redisClient : option nat;
  opened : nat;
  closed : nat
}.

Definition initialRedis : RedisState :=
  {| redisClient := None; opened := 0; closed := 0 |}.

(** [getRedisClient()]: the client returned and the state left. *)
Definition getRedisClient (s : RedisState) : nat * RedisState :=
  match redisClient s with
  | Some c => (c, s)
  | None =>
      (opened s,
       {| redisClient := Some (opened s); opened := S (opened s); closed := closed s |})
  end.

(** [closeRedis()].  [quitResolves] tells whether [await redisClient.quit()]
    resolves; when it rejects, [closeRedis] throws before it clears the
    client.  The result: whether the call returned, and the state left. *)
Definition closeRedis (quitResolves : bool) (s : RedisState) : bool * RedisState :=
  match redisClient s with
  | Some _ =>
      if quitResolves
      then (true, {| redisClient := None; opened := opened s; closed := S (closed s) |})
      else (false, s)
  | None => (true, s)
  end.

(** What [JSON.parse] made of a stored value, as far as [fetchMarkets]
    and its callers read it. *)
Record ParsedMetadata := {
  parsed_yesTokenId : option string;
  parsed_noTokenId : option string;
  parsed_conditionId : option string;
  parsed_marketSlug : option string
}.

(** [x] when [x] is truthy: present and not the empty string. *)
Definition truthy (x : option string) : option string :=
  match x with
  | Some (String c s) => Some (String c s)
  | _ => None
  end.

Definition METADATA_KEY_PREFIX : string := "pm:metadata:".

Section Fetch.
(** [JSON.parse(jsonValue)]; [None] when it throws. *)
Variable JSON_parse : string -> option ParsedMetadata.
(** [Object.entries(await redis.hgetall(key))] on the client given; [None]
    when the call rejects. *)
Variable hgetall : nat -> string -> option (list (string * string)).

(** One pass through the body of
    [for (const [conditionId, jsonValue] of Object.entries(data))]. *)
Definition fetchEntry (markets : list MarketMetadata) (entry : string * string)
  : list MarketMetadata :=
  match JSON_parse (snd entry) with
  | None => markets                              (* caught and logged *)
  | Some metadata =>
      match truthy (parsed_yesTokenId metadata),
            truthy (parsed_noTokenId metadata),
            truthy (parsed_conditionId metadata) with
      | Some y, Some n, Some c =>
          (markets ++ [ {| yesTokenId := y; noTokenId := n; conditionId := c;
                           marketSlug := parsed_marketSlug metadata |} ])%list
      | _, _, _ => markets                       (* logged, [continue] *)
      end
  end.

Definition fetchEntries (entries : list (string * string)) : list MarketMetadata :=
  fold_left fetchEntry entries [].

(** [fetchMarkets(asset)]: the markets ([None] when [hgetall] rejects) and
    the state of the client module afterwards. *)
Definition fetchMarkets (asset : string) (s : RedisState)
  : option (list MarketMetadata) * RedisState :=
  let (redis, s1) := getRedisClient s in
  match hgetall redis (METADATA_KEY_PREFIX ++ asset)%string with
  | None => (None, s1)
  | Some entries => (Some (fetchEntries entries), s1)
  end.

(** The calls the rest of the program makes into the module. *)
Inductive Call :=
| CallGet
| CallClose (quitResolves : bool)
| CallFetch (asset : string).

Definition call (s : RedisState) (c : Call) : RedisState :=
  match c with
  | CallGet => snd (getRedisClient s)
  | CallClose quitResolves => snd (closeRedis quitResolves s)
  | CallFetch asset => snd (fetchMarkets asset s)
  end.

Definition calls (cs : list Call) : RedisState := fold_left call cs initialRedis.
End Fetch.

(** A stored value that parses to a record with every field present. *)
Definition completeMetadata (y n c : string) : ParsedMetadata :=
  {| parsed_yesTokenId := Some y; parsed_noTokenId := Some n;
     parsed_conditionId := Some c; parsed_marketSlug := None |}.

(** A parser for three stored values: "ok" is complete, "partial" lacks the
    NO token id, everything else does not parse. *)
Definition sampleParse (json : string) : option ParsedMetadata :=
  if String.eqb json "ok" then Some (completeMetadata "11" "12" "0xabc")
  else if String.eqb json "partial" then
    Some {| parsed_yesTokenId := Some "11"; parsed_noTokenId := Some "";
            parsed_conditionId := Some "0xdef"; parsed_marketSlug := None |}
  else None.

End RedisClient.

(** At most one connection is open, and it is the one opened last. *)
Definition OneConnection (s : RedisClient.RedisState) : Prop :=
  match RedisClient.redisClient s with
  | Some c => RedisClient.opened s = S (RedisClient.closed s)
              /\ RedisClient.opened s = S c
  | None => RedisClient.opened s = RedisClient.closed s
  end.


(* ------------------------------------------------------------------ *)
(** ** Formatting an amount ([formatTokenAmount]) *)

(** The character of a decimal digit [0 <= d <= 9]. *)
Definition digitChar (d : Z) : ascii := ascii_of_nat (48 + Z.to_nat d).

(** The decimal digits of [n >= 0], most significant first; the fuel bounds
    their number. *)
Fixpoint digitsOf (fuel : nat) (n : Z) : string :=
  match fuel with
  | O => EmptyString
  | S fuel' =>
      if n <? 10 then String (digitChar n) EmptyString
      else (digitsOf fuel' (n / 10) ++ String (digitChar (n mod 10)) EmptyString)%string
  end.

(** More than the number of decimal digits of [n]: its number of bits. *)
Definition digitFuel (n : Z) : nat := S (Z.to_nat (Z.log2 n)).

(** [n.toString()] for a bigint. *)
Definition toStringBigInt (n : Z) : string :=
  if n <? 0 then String "-" (digitsOf (digitFuel (- n)) (- n))
  else digitsOf (digitFuel n) n.

(** [n] copies of [c]. *)
Fixpoint fill (n : nat) (c : ascii) : string :=
  match n with
  | O => EmptyString
  | S n' => String c (fill n' c)
  end.

(** [s.padStart(target, c)] for a one-character pad string. *)
Definition padStart (target : nat) (c : ascii) (s : string) : string :=
  if (String.length s <? target)%nat
  then (fill (target - String.length s) c ++ s)%string
  else s.

Definition formatTokenAmount (amount : Z) : string :=
  let divisor := 1000000 in
  let whole := Z.quot amount divisor in          (* bigint [/] truncates *)
  let fraction := Z.rem amount divisor in        (* bigint [%] follows the dividend *)
  (toStringBigInt whole ++ "."
   ++ substring 0 2 (padStart 6 "0" (toStringBigInt fraction)) ++ " USDC")%string.

(** [n] written with exactly [k] decimal digits. *)
Fixpoint fixedDigits (k : nat) (n : Z) : string :=
  match k with
  | O => EmptyString
  | S k' => (fixedDigits k' (n / 10) ++ String (digitChar (n mod 10)) EmptyString)%string
  end.

(* ------------------------------------------------------------------ *)
(** ** The private key ([decryptPrivateKey]) *)

Inductive KeyFailure :=
| DecryptThrew        (* the decryption itself raised *)
| FailedToDecrypt     (* 'Failed to decrypt private key. ...' *)
| NotAPrivateKey.     (* 'Decrypted key is not a valid 32-byte hex private key.' *)

Inductive KeyResult :=
| KeyOk (key : string)
| KeyThrows (why : KeyFailure).

Section Decrypt.
(** [CryptoJS.AES.decrypt(ciphertext, password).toString(CryptoJS.enc.Utf8)];
    [None] when it throws. *)
Variable decrypt : string -> string -> option string.
(** [s.trim()] *)
Variable trim : string -> string.
(** [isHex(s)] *)
Variable isHex : string -> bool.
(** [CONFIG.ENCRYPT_PRIVATE_KEY] *)
Variable ENCRYPT_PRIVATE_KEY : string.

Definition decryptPrivateKey (password : string) : KeyResult :=
  match decrypt ENCRYPT_PRIVATE_KEY password with
  | None => KeyThrows DecryptThrew
  | Some EmptyString => KeyThrows FailedToDecrypt
  | Some privateKey =>
      let trimmedKey := trim privateKey in
      let trimmedKey :=
        if is64Hex trimmedKey then ("0x" ++ trimmedKey)%string else trimmedKey in
      if negb (isHex trimmedKey) || negb (String.length trimmedKey =? 66)%nat
      then KeyThrows NotAPrivateKey
      else KeyOk trimmedKey
  end.
End Decrypt.

(** A key of 64 hexadecimal digits, without prefix. *)
Definition sampleBareKey : string :=
  "00112233445566778899aabbccddeeff00112233445566778899AABBCCDDEEFF".

(* ------------------------------------------------------------------ *)
(** ** Shutdown (the signal handlers of [main]) *)

Record ProcessState := {
  isShuttingDown : bool;
  redis : RedisClient.RedisState;
  exitStatus : option Z            (* [process.exit(n)] reached *)
}.

(** [shutdown(signal)], run for one SIGINT or SIGTERM, [quitResolves] as
    for [closeRedis].  When [await closeRedis()] throws, the handler ends
    there: [process.exit(0)] is not reached. *)
Definition shutdown (quitResolves : bool) (st : ProcessState) : ProcessState :=
  if isShuttingDown st then st
  else
    match RedisClient.closeRedis quitResolves (redis st) with
    | (true, r) => {| isShuttingDown := true; redis := r; exitStatus := Some 0 |}
    | (false, r) => {| isShuttingDown := true; redis := r; exitStatus := exitStatus st |}
    end.

(** The handler run once for each signal received, each with what [quit]
    would do at that moment. *)
Fixpoint signals (quits : list bool) (st : ProcessState) : ProcessState :=
  match quits with
  | [] => st
  | q :: rest => signals rest (shutdown q st)
  end.

(** A running worker that has fetched markets once. *)
Definition runningWorker : ProcessState :=
  {| isShuttingDown := false;
     redis := snd (RedisClient.getRedisClient RedisClient.initialRedis);
     exitStatus := None |}.

(* ================================================================== *)
(** * Properties *)

(* ------------------------------------------------------------------ *)
(** ** Quota tracker *)

Lemma checkAndUpdateQuota_within (limit now : Z) (q : QuotaTracker) :
  now - hourStartTime q < hourMs ->
  checkAndUpdateQuota limit now q = (callsThisHour q <? limit, q).
Proof.
  intros Hwin. unfold checkAndUpdateQuota.
  destruct (Z.leb_spec hourMs (now - hourStartTime q)); [lia|].
  destruct (Z.leb_spec limit (callsThisHour q));
    destruct (Z.ltb_spec (callsThisHour q) limit); try lia; reflexivity.
Qed.

Lemma checkAndUpdateQuota_elapsed (limit now : Z) (q : QuotaTracker) :
  hourMs <= now - hourStartTime q ->
  checkAndUpdateQuota limit now q =
    (0 <? limit, {| callsThisHour := 0; hourStartTime := now |}).
Proof.
  intros Hel. unfold checkAndUpdateQuota.
  destruct (Z.leb_spec hourMs (now - hourStartTime q)); [|lia].
  cbn [callsThisHour].
  destruct (Z.leb_spec limit 0); destruct (Z.ltb_spec 0 limit); try lia; reflexivity.
Qed.

(** A check that answers [true] leaves the counter strictly below the limit. *)
Lemma checkAndUpdateQuota_true (limit now : Z) (q q' : QuotaTracker) :
  checkAndUpdateQuota limit now q = (true, q') -> callsThisHour q' < limit.
Proof.
  unfold checkAndUpdateQuota.
  destruct (hourMs <=? now - hourStartTime q);
    match goal with |- context [limit <=? ?c] => destruct (Z.leb_spec limit c) end;
    intros Heq; inversion Heq; subst; cbn [callsThisHour] in *; lia.
Qed.

(** The counter a check leaves is the old one or zero. *)
Lemma checkAndUpdateQuota_calls (limit now : Z) (q : QuotaTracker) :
  callsThisHour (snd (checkAndUpdateQuota limit now q)) = callsThisHour q \/
  callsThisHour (snd (checkAndUpdateQuota limit now q)) = 0.
Proof.
  unfold checkAndUpdateQuota.
  destruct (hourMs <=? now - hourStartTime q);
    match goal with |- context [limit <=? ?c] => destruct (limit <=? c) end;
    cbn; auto.
Qed.

(** C8.  With a positive hourly limit: [checkAndUpdateQuota] answers
    [false] whenever the counter has reached the limit and less than one
    hour has passed since the window started (and then leaves the tracker
    alone); once an hour or more has passed it first resets the counter to 0
    and the window start to [now], so it answers [true] whatever the counter
    was, and the next [incrementQuota] makes the counter 1. *)
Theorem checkAndUpdateQuota_gate (limit now : Z) (q : QuotaTracker)
    (Hlimit : 0 < limit) :
  (limit <= callsThisHour q -> now - hourStartTime q < hourMs ->
     checkAndUpdateQuota limit now q = (false, q))
  /\
  (hourMs <= now - hourStartTime q ->
     checkAndUpdateQuota limit now q =
       (true, {| callsThisHour := 0; hourStartTime := now |})
     /\ callsThisHour
          (incrementQuota (snd (checkAndUpdateQuota limit now q))) = 1).
Proof.
  split.
  - intros Hfull Hwin. rewrite checkAndUpdateQuota_within by assumption.
    destruct (Z.ltb_spec (callsThisHour q) limit); [lia | reflexivity].
  - intros Hel. rewrite checkAndUpdateQuota_elapsed by assumption.
    destruct (Z.ltb_spec 0 limit); [|lia]. split; reflexivity.
Qed.

Lemma checkAndUpdateQuota_gate_witness :
  checkAndUpdateQuota 20 1000 {| callsThisHour := 20; hourStartTime := 0 |}
    = (false, {| callsThisHour := 20; hourStartTime := 0 |})
  /\ checkAndUpdateQuota 20 3600000 {| callsThisHour := 25; hourStartTime := 0 |}
    = (true, {| callsThisHour := 0; hourStartTime := 3600000 |}).
Proof.
  split.
  - apply (checkAndUpdateQuota_gate 20 1000
             {| callsThisHour := 20; hourStartTime := 0 |});
      [lia | simpl; lia | vm_compute; reflexivity].
  - apply (checkAndUpdateQuota_gate 20 3600000
             {| callsThisHour := 25; hourStartTime := 0 |}); [lia | vm_compute; discriminate].
Defined.

(* ------------------------------------------------------------------ *)
(** ** Candidate scanner *)

Section ScanProperties.
Variable minimum : Z.
Variable read : MarketMetadata -> option TokenBalance.

(** The loop, from any accumulator: what it appends and adds. *)
Lemma scan_fold (markets : list MarketMetadata) :
  nonnegReads read markets ->
  forall acc,
    fold_left (scanMarket minimum read) markets acc =
    {| candidates := (candidates acc ++ spec_candidates minimum read markets)%list;
       skippedZero := (skippedZero acc + count (spec_zero read) markets)%nat;
       skippedBelowMin :=
         (skippedBelowMin acc + count (spec_belowMin minimum read) markets)%nat |}.
Proof.
  unfold count.
  induction markets as [|m ms IH]; intros Hnn acc.
  - cbn. rewrite app_nil_r, !Nat.add_0_r. destruct acc; reflexivity.
  - assert (Hms : nonnegReads read ms) by (intros x b Hx; apply Hnn; right; exact Hx).
    cbn [fold_left]. rewrite (IH Hms). clear IH.
    unfold scanMarket, spec_candidates, spec_zero, spec_belowMin, spec_eligible,
      spec_mergeableAmount.
    cbn [flat_map filter].
    destruct (read m) as [b|] eqn:Hr.
    + destruct (Hnn m b (or_introl eq_refl) Hr) as [Hy Hn].
      replace (if yesBalance b <? noBalance b then yesBalance b else noBalance b)
        with (Z.min (yesBalance b) (noBalance b))
        by (destruct (Z.ltb_spec (yesBalance b) (noBalance b)); lia).
      set (a := Z.min (yesBalance b) (noBalance b)).
      assert (Ha : 0 <= a) by (unfold a; lia).
      destruct (Z.eqb_spec a 0) as [E|E].
      * rewrite E. cbn. f_equal; lia.
      * destruct (Z.ltb_spec a minimum); destruct (Z.ltb_spec 0 a); try lia;
          destruct (Z.leb_spec minimum a); try lia; cbn.
        -- f_equal; lia.
        -- rewrite <- app_assoc. reflexivity.
    + reflexivity.
Qed.
End ScanProperties.

(** C2.  For balances as the chain reports them (unsigned): the candidates
    a scan emits are, in input order, exactly the descriptors whose read
    succeeded with [min(balanceA, balanceB)] strictly positive and at least
    the minimum merge amount, each paired with that minimum; [skippedZero]
    counts the descriptors whose minimum is 0 and [skippedBelowMin] those
    with [0 < minimum of the two < minimum merge amount]. *)
Theorem scan_classification (minimum : Z)
    (read : MarketMetadata -> option TokenBalance)
    (markets : list MarketMetadata)
    (Hnonneg : nonnegReads read markets) :
  let r := scanMarkets minimum read markets in
  candidates r = spec_candidates minimum read markets
  /\ skippedZero r = count (spec_zero read) markets
  /\ skippedBelowMin r = count (spec_belowMin minimum read) markets
  /\ (forall c, In c (candidates r) <->
        exists m b, In m markets /\ read m = Some b
          /\ c = {| market := m;
                    minBalance := Z.min (yesBalance b) (noBalance b) |}
          /\ 0 < Z.min (yesBalance b) (noBalance b)
          /\ minimum <= Z.min (yesBalance b) (noBalance b)).
Proof.
  cbv zeta. unfold scanMarkets. rewrite (scan_fold minimum read markets Hnonneg).
  cbn [candidates skippedZero skippedBelowMin emptyScan app Nat.add].
  repeat split; try reflexivity.
  - intros Hin. unfold spec_candidates in Hin. apply in_flat_map in Hin.
    destruct Hin as [m [Hm Hc]]. destruct (read m) as [b|] eqn:Hr; [|destruct Hc].
    unfold spec_eligible, spec_mergeableAmount in Hc.
    destruct (Z.ltb_spec 0 (Z.min (yesBalance b) (noBalance b)));
      destruct (Z.leb_spec minimum (Z.min (yesBalance b) (noBalance b)));
      cbn in Hc; try contradiction.
    destruct Hc as [Hc|[]]. exists m, b. repeat split; auto.
  - intros [m [b [Hm [Hr [Hc [Hpos Hmin]]]]]].
    unfold spec_candidates. apply in_flat_map. exists m. split; [exact Hm|].
    rewrite Hr. unfold spec_eligible, spec_mergeableAmount.
    destruct (Z.ltb_spec 0 (Z.min (yesBalance b) (noBalance b))); [|lia].
    destruct (Z.leb_spec minimum (Z.min (yesBalance b) (noBalance b))); [|lia].
    left. symmetry. exact Hc.
Qed.

Lemma scan_classification_witness :
  let r := scanMarkets 10 sampleRead
             [sampleMarket "a"; sampleMarket "b"; sampleMarket "c"] in
  candidates r = [sampleCandidate "c" 15]
  /\ skippedZero r = 1%nat /\ skippedBelowMin r = 1%nat.
Proof.
  destruct (scan_classification 10 sampleRead
              [sampleMarket "a"; sampleMarket "b"; sampleMarket "c"])
    as [Hc [Hz [Hb _]]].
  - intros m b Hin Hr. simpl in Hin.
    destruct Hin as [<-|[<-|[<-|[]]]]; vm_compute in Hr; inversion Hr; simpl; lia.
  - cbv zeta. rewrite Hc, Hz, Hb. vm_compute. repeat split.
Defined.

(* ------------------------------------------------------------------ *)
(** ** Batch builder *)

Section BatchProperties.
Local Open Scope nat_scope.
Context {A : Type}.
Variable size : nat.
Hypothesis Hsize : 0 < size.

Lemma totalBatches_zero : totalBatches size 0 = 0.
Proof. unfold totalBatches. apply Nat.div_small. lia. Qed.

Lemma totalBatches_step (n : nat) :
  0 < n -> totalBatches size n = S (totalBatches size (n - size)).
Proof.
  intros Hn. unfold totalBatches.
  destruct (Nat.le_gt_cases n size) as [Hle|Hgt].
  - replace (n - size) with 0 by lia.
    rewrite (Nat.div_small (0 + size - 1) size) by lia.
    symmetry. apply (Nat.div_unique _ _ 1 (n - 1)); lia.
  - replace (n + size - 1) with ((n - size + size - 1) + 1 * size) by lia.
    rewrite Nat.div_add by lia. lia.
Qed.

(** [totalBatches] is the ceiling of [n / size]. *)
Lemma totalBatches_ceil (n : nat) :
  0 < n ->
  size * (totalBatches size n - 1) < n /\ n <= size * totalBatches size n.
Proof.
  intros Hn. unfold totalBatches.
  pose proof (Nat.div_mod_eq (n + size - 1) size) as E.
  pose proof (Nat.mod_upper_bound (n + size - 1) size ltac:(lia)) as U.
  set (q := (n + size - 1) / size) in *.
  set (r := (n + size - 1) mod size) in *.
  assert (0 < q) by (destruct q; [nia | lia]).
  split; nia.
Qed.

Lemma slice_length (xs : list A) (i : nat) :
  List.length (slice xs i (i + size)) = Nat.min size (List.length xs - i).
Proof.
  clear Hsize. unfold slice. rewrite length_firstn, length_skipn.
  replace (i + size - i) with size by lia. reflexivity.
Qed.

Lemma slice_rest (xs : list A) (i : nat) :
  (slice xs i (i + size) ++ skipn (i + size) xs)%list = skipn i xs.
Proof.
  clear Hsize. unfold slice. replace (i + size - i) with size by lia.
  rewrite (Nat.add_comm i size), <- skipn_skipn. apply firstn_skipn.
Qed.

Lemma firstn_then (a b : nat) (l : list A) :
  (firstn a l ++ firstn b (skipn a l))%list = firstn (a + b) l.
Proof.
  clear Hsize. revert l. induction a as [|a IH]; intros l; [reflexivity|].
  destruct l as [|x l]; cbn; [rewrite firstn_nil; reflexivity|].
  rewrite IH. reflexivity.
Qed.

(** The chunks numbered [j], ..., [j + m - 1], put end to end. *)
Lemma chunks_concat (xs : list A) (m : nat) :
  forall j,
    List.concat (map (fun k => slice xs (k * size) (k * size + size)) (seq j m))
    = firstn (m * size) (skipn (j * size) xs).
Proof.
  clear Hsize. induction m as [|m IH]; intros j; [reflexivity|].
  cbn [seq map List.concat]. rewrite IH. unfold slice.
  replace (j * size + size - j * size) with size by lia.
  replace (S j * size) with (size + j * size) by lia.
  rewrite <- skipn_skipn, firstn_then. reflexivity.
Qed.

Lemma spec_batches_length (xs : list A) :
  List.length (spec_batches size xs) = totalBatches size (List.length xs).
Proof. unfold spec_batches. rewrite length_map, length_seq. reflexivity. Qed.

Lemma spec_batches_concat (xs : list A) : List.concat (spec_batches size xs) = xs.
Proof.
  unfold spec_batches. rewrite chunks_concat. cbn [Nat.mul skipn].
  apply firstn_all2.
  destruct xs as [|x xs]; [cbn; lia|].
  destruct (totalBatches_ceil (List.length (x :: xs))) as [_ Hhi]; [cbn; lia|]. lia.
Qed.

Lemma spec_batches_sizes (xs : list A) :
  Forall (fun b => 0 < List.length b <= size) (spec_batches size xs).
Proof.
  unfold spec_batches. apply Forall_forall. intros b Hb.
  apply in_map_iff in Hb as [k [<- Hk]]. apply in_seq in Hk.
  rewrite slice_length.
  assert (Hn : 0 < List.length xs)
    by (destruct xs; [cbn [List.length] in Hk; rewrite totalBatches_zero in Hk; lia
                     | cbn; lia]).
  destruct (totalBatches_ceil (List.length xs) Hn) as [Hlo _].
  assert (k * size < List.length xs) by nia. lia.
Qed.

Lemma firstn_seq_min (k : nat) :
  forall j m, firstn k (seq j m) = seq j (Nat.min k m).
Proof.
  clear Hsize. induction k as [|k IH]; intros j [|m]; cbn; try reflexivity.
  rewrite IH. reflexivity.
Qed.

(** The first [S k] chunks are the first [k] and chunk [k]. *)
Lemma spec_batches_firstn_S (xs : list A) (k : nat) :
  k < totalBatches size (List.length xs) ->
  firstn (S k) (spec_batches size xs)
  = (firstn k (spec_batches size xs) ++ [slice xs (k * size) (k * size + size)])%list.
Proof.
  clear Hsize. intros Hk. unfold spec_batches.
  rewrite !firstn_map, !firstn_seq_min.
  replace (Nat.min (S k) (totalBatches size (List.length xs))) with (S k) by lia.
  replace (Nat.min k (totalBatches size (List.length xs))) with k by lia.
  rewrite seq_S, map_app. reflexivity.
Qed.
Lemma spec_batches_firstn (xs : list A) (k : nat) :
  k <= totalBatches size (List.length xs) ->
  firstn k (spec_batches size xs)
  = map (fun j => slice xs (j * size) (j * size + size)) (seq 0 k).
Proof.
  clear Hsize. intros Hk. unfold spec_batches.
  rewrite firstn_map, firstn_seq_min.
  replace (Nat.min k (totalBatches size (List.length xs))) with k by lia.
  reflexivity.
Qed.

End BatchProperties.

(* ------------------------------------------------------------------ *)
(** ** Backoff computation *)

Section RegexProperties.
Local Open Scope string_scope.



Lemma stripPrefixCI_inv (p : string) :
  forall s rest, stripPrefixCI p s = Some rest ->
  exists r, s = r ++ rest /\ equalCI p r = true.
Proof.
  induction p as [|x p IH]; intros s rest H; cbn in H.
  - inversion H. exists "". split; reflexivity.
  - destruct s as [|y s]; [discriminate|].
    destruct (charEqCI x y) eqn:Hc; [|discriminate].
    destruct (IH _ _ H) as [r [-> Hr]].
    exists (String y r). split; [reflexivity|]. cbn. rewrite Hc, Hr. reflexivity.
Qed.


Lemma spanDigits_inv (s : string) :
  forall ds rest, spanDigits s = (ds, rest) ->
  s = ds ++ rest /\ allDigits ds = true.
Proof.
  induction s as [|c s IH]; intros ds rest H; cbn in H.
  - inversion H. split; reflexivity.
  - destruct (isDigit c) eqn:Hc.
    + destruct (spanDigits s) as [ds' rest'] eqn:E. inversion H; subst.
      destruct (IH _ _ eq_refl) as [-> Hall].
      split; [reflexivity|]. cbn. rewrite Hc, Hall. reflexivity.
    + inversion H. split; reflexivity.
Qed.


Lemma matchHere_sound (t ds : string) :
  matchHere t = Some ds -> exists post, HintAt t "" ds post.
Proof.
  unfold matchHere. intros H.
  destruct (stripPrefixCI "resets in " t) as [r1|] eqn:E1; [|discriminate].
  destruct (spanDigits r1) as [ds1 r2] eqn:E2.
  destruct ds1 as [|d ds1]; [discriminate|].
  destruct (stripPrefixCI " seconds" r2) as [post|] eqn:E3; [|discriminate].
  inversion H; subst ds.
  apply stripPrefixCI_inv in E1 as [r [-> Hr]].
  apply spanDigits_inv in E2 as [-> Hds].
  apply stripPrefixCI_inv in E3 as [s [-> Hs]].
  exists post, r, s. cbn [append]. repeat split; auto. discriminate.
Qed.

Lemma HintAt_cons (c : ascii) (msg pre ds post : string) :
  HintAt msg pre ds post -> HintAt (String c msg) (String c pre) ds post.
Proof.
  intros [r [s [-> H]]]. exists r, s. split; [reflexivity | exact H].
Qed.


Lemma regexExec_sound (msg : string) :
  forall ds, regexExec msg = Some ds -> exists pre post, HintAt msg pre ds post.
Proof.
  induction msg as [|c msg IH]; intros ds H; cbn [regexExec] in H.
  - destruct (matchHere "") eqn:E; [|discriminate]. inversion H; subst.
    destruct (matchHere_sound _ _ E) as [post Hp]. exists "", post. exact Hp.
  - destruct (matchHere (String c msg)) eqn:E.
    + inversion H; subst. destruct (matchHere_sound _ _ E) as [post Hp].
      exists "", post. exact Hp.
    + destruct (IH _ H) as [pre [post Hp]].
      exists (String c pre), post. apply HintAt_cons, Hp.
Qed.


End RegexProperties.



(* ------------------------------------------------------------------ *)
(** ** Traces *)

Lemma executedBatches_app (t1 t2 : list Event) :
  executedBatches (t1 ++ t2) = (executedBatches t1 ++ executedBatches t2)%list.
Proof. apply flat_map_app. Qed.

Lemma quotaStates_app (t1 t2 : list Event) :
  quotaStates (t1 ++ t2) = (quotaStates t1 ++ quotaStates t2)%list.
Proof. apply flat_map_app. Qed.

Lemma sleeps_app (t1 t2 : list Event) :
  sleeps (t1 ++ t2) = (sleeps t1 ++ sleeps t2)%list.
Proof. apply flat_map_app. Qed.

(* ------------------------------------------------------------------ *)
(** ** Execution engine *)

Section EngineProperties.
Variable cfg : Config.
Variable batchNum : nat.
Variable batch : list MergeCandidate.
Variable relayer : nat -> AttemptOutcome.

Lemma tryBlock_thrown (o : AttemptOutcome) (st : CycleState) :
  snd (tryBlock batchNum batch o st) = thrown o.
Proof. destruct o; reflexivity. Qed.

(** One pass through the [try] block sends one submission, and counts it
    exactly when [relayer.execute] returned. *)
Lemma tryBlock_effect (o : AttemptOutcome) (st : CycleState) :
  let st' := fst (tryBlock batchNum batch o st) in
  executedBatches (trace st') =
  (executedBatches (trace st) ++ [(batchNum, batch)])%list
  /\ sleeps (trace st') = sleeps (trace st)
  /\ callsThisHour (quotaTracker st') =
       callsThisHour (quotaTracker st) + (if accepted o then 1 else 0)
  /\ hourStartTime (quotaTracker st') = hourStartTime (quotaTracker st)
  /\ errorCount st' = errorCount st
  /\ mergedCount st' =
       (mergedCount st + match thrown o with
                         | None => List.length batch
                         | Some _ => 0
                         end)%nat.
Proof.
  destruct o; cbn;
    rewrite ?executedBatches_app, ?sleeps_app; cbn;
    rewrite ?app_nil_r, ?Nat.add_0_r, ?Z.add_0_r; repeat split; reflexivity.
Qed.

Lemma backoff_of_429 (e : RelayError) :
  err_status e = Some 429 -> exists b, getRelayerBackoffMs e = Some b.
Proof.
  intros Hs. unfold getRelayerBackoffMs. rewrite Hs. cbn.
  destruct (regexExec (errorText e)); eauto.
Qed.

Lemma retryLoop_S (fuel attempts : nat) (st : CycleState) :
  retryLoop cfg batchNum batch relayer (S fuel) attempts st =
  if (attempts <? maxAttempts)%nat then
    match tryBlock batchNum batch (relayer attempts) st with
    | (st1, None) => Some st1
    | (st1, Some e) =>
        match catchBlock cfg batch (S attempts) e st1 with
        | (st2, Break) => Some st2
        | (st2, Continue) =>
            retryLoop cfg batchNum batch relayer fuel (S attempts) st2
        end
    end
  else Some st.
Proof. reflexivity. Qed.

(** A rate-limited attempt that is not the last one is followed by a
    backoff sleep and another pass. *)
Lemma retryLoop_retry (fuel attempts : nat) (st : CycleState) :
  rateLimitedOnly (relayer attempts) ->
  (S attempts < maxAttempts)%nat ->
  exists b,
    retryLoop cfg batchNum batch relayer (S fuel) attempts st =
    retryLoop cfg batchNum batch relayer fuel (S attempts)
      (emit (EvSleep b) (fst (tryBlock batchNum batch (relayer attempts) st))).
Proof.
  intros [e [Hthrown [Hs Hex]]] Hlt.
  destruct (backoff_of_429 e Hs) as [b Hb]. exists b.
  rewrite retryLoop_S.
  destruct (Nat.ltb_spec attempts maxAttempts); [|lia].
  pose proof (tryBlock_thrown (relayer attempts) st) as Ht.
  destruct (tryBlock batchNum batch (relayer attempts) st) as [st1 oe].
  cbn [fst snd] in *. rewrite Ht, Hthrown.
  unfold catchBlock. rewrite Hb, Hex.
  destruct (Nat.ltb_spec (S attempts) maxAttempts); [reflexivity | lia].
Qed.

Lemma retryLoop_retries (a : nat) :
  forall fuel k st,
    (forall j, (k <= j < k + a)%nat -> rateLimitedOnly (relayer j)) ->
    (k + a < maxAttempts)%nat ->
    exists st_a,
      retryLoop cfg batchNum batch relayer (a + fuel) k st =
      retryLoop cfg batchNum batch relayer fuel (k + a) st_a
      /\ mergedCount st_a = mergedCount st
      /\ errorCount st_a = errorCount st
      /\ executedBatches (trace st_a) =
           (executedBatches (trace st) ++ repeat (batchNum, batch) a)%list
      /\ List.length (sleeps (trace st_a)) = (List.length (sleeps (trace st)) + a)%nat
      /\ hourStartTime (quotaTracker st_a) = hourStartTime (quotaTracker st).
Proof.
  induction a as [|a IH]; intros fuel k st Hall Hlt.
  - exists st. rewrite Nat.add_0_r, app_nil_r, Nat.add_0_r. repeat split; reflexivity.
  - destruct (retryLoop_retry (a + fuel) k st) as [b Hb]; [apply Hall; lia | lia |].
    pose proof (tryBlock_effect (relayer k) st) as Heff. cbv zeta in Heff.
    destruct (Hall k ltac:(lia)) as [e [Hthrown _]]. rewrite Hthrown in Heff.
    set (st1 := fst (tryBlock batchNum batch (relayer k) st)) in *.
    destruct Heff as [Hex [Hsl [_ [Hh [Herr Hm]]]]].
    destruct (IH fuel (S k) (emit (EvSleep b) st1)) as [st_a [Hrun [H1 [H2 [H3 [H4 H5]]]]]].
    { intros j Hj. apply Hall. lia. }
    { lia. }
    exists st_a. cbn [Nat.add]. rewrite Hb, Hrun.
    replace (S k + a)%nat with (k + S a)%nat by lia.
    split; [reflexivity|].
    cbn [emit mergedCount errorCount trace quotaTracker] in *.
    rewrite executedBatches_app in H3. rewrite sleeps_app in H4.
    cbn in H3, H4. rewrite app_nil_r in H3. rewrite length_app in H4. cbn in H4.
    repeat split.
    + rewrite H1, Hm. lia.
    + rewrite H2, Herr. reflexivity.
    + rewrite H3, Hex, <- app_assoc. reflexivity.
    + rewrite H4, Hsl. lia.
    + rewrite H5, Hh. reflexivity.
Qed.

(** A pass whose [try] block runs to its [break]. *)
Lemma retryLoop_done (fuel k : nat) (st : CycleState) :
  (k < maxAttempts)%nat -> thrown (relayer k) = None ->
  retryLoop cfg batchNum batch relayer (S fuel) k st =
  Some (fst (tryBlock batchNum batch (relayer k) st)).
Proof.
  intros Hk Ht. rewrite retryLoop_S.
  destruct (Nat.ltb_spec k maxAttempts); [|lia].
  pose proof (tryBlock_thrown (relayer k) st) as Hs.
  destruct (tryBlock batchNum batch (relayer k) st) as [st1 oe].
  cbn [fst snd] in *. rewrite Hs, Ht. reflexivity.
Qed.

(** A pass that gives the batch up: the error has no backoff, or it was
    the last attempt. *)
Lemma retryLoop_failed (fuel k : nat) (st : CycleState) (e : RelayError) :
  (k < maxAttempts)%nat -> thrown (relayer k) = Some e ->
  getRelayerBackoffMs e = None
    \/ (isQuotaExhausted e = false /\ S k = maxAttempts) ->
  retryLoop cfg batchNum batch relayer (S fuel) k st =
  Some (addErrors (List.length batch)
          (fst (tryBlock batchNum batch (relayer k) st))).
Proof.
  intros Hk Ht Hwhy. rewrite retryLoop_S.
  destruct (Nat.ltb_spec k maxAttempts); [|lia].
  pose proof (tryBlock_thrown (relayer k) st) as Hs.
  destruct (tryBlock batchNum batch (relayer k) st) as [st1 oe].
  cbn [fst snd] in *. rewrite Hs, Ht. unfold catchBlock.
  destruct Hwhy as [Hnone | [Hex Hlast]].
  - rewrite Hnone. reflexivity.
  - destruct (getRelayerBackoffMs e); [|reflexivity].
    rewrite Hex. destruct (Nat.ltb_spec (S k) maxAttempts); [lia | reflexivity].
Qed.

(** A pass on which the relay reports the quota as used up. *)
Lemma retryLoop_exhausted (fuel k : nat) (st : CycleState) :
  (k < maxAttempts)%nat -> reportsExhausted (relayer k) ->
  let st1 := fst (tryBlock batchNum batch (relayer k) st) in
  retryLoop cfg batchNum batch relayer (S fuel) k st =
  Some (addErrors (List.length batch)
          (setQuota (markExhausted (HOURLY_QUOTA_LIMIT cfg) (quotaTracker st1)) st1)).
Proof.
  intros Hk [e [Ht [Hs Hex]]]. cbv zeta. rewrite retryLoop_S.
  destruct (Nat.ltb_spec k maxAttempts); [|lia].
  pose proof (tryBlock_thrown (relayer k) st) as Hth.
  destruct (tryBlock batchNum batch (relayer k) st) as [st1 oe].
  cbn [fst snd] in *. rewrite Hth, Ht. unfold catchBlock.
  destruct (backoff_of_429 e Hs) as [b ->]. rewrite Hex. reflexivity.
Qed.

(** The retry loop always finishes within its attempts. *)
Lemma retryLoop_total (fuel : nat) :
  forall k st, (maxAttempts - k <= fuel)%nat ->
  exists st', retryLoop cfg batchNum batch relayer fuel k st = Some st'.
Proof.
  induction fuel as [|fuel IH]; intros k st Hfuel.
  - cbn [retryLoop]. destruct (Nat.ltb_spec k maxAttempts); [lia | eauto].
  - rewrite retryLoop_S. destruct (k <? maxAttempts)%nat; [|eauto].
    destruct (tryBlock batchNum batch (relayer k) st) as [st1 [e|]]; [|eauto].
    destruct (catchBlock cfg batch (S k) e st1) as [st2 []]; [eauto|].
    apply IH. lia.
Qed.

Lemma executeBatch_total (st : CycleState) :
  exists st', executeBatch cfg batchNum batch relayer st = Some st'.
Proof. apply retryLoop_total. lia. Qed.
End EngineProperties.

(** C4.  When every submission of a batch raises a rate-limit error (status
    429) that does not report the quota as used up, the engine finishes after
    exactly [maxAttempts] = 3 submissions of that batch, with two backoff
    sleeps in between, leaves the merged count alone and adds the batch size
    to the error count. *)
Theorem persistent_rate_limit (cfg : Config) (batchNum : nat)
    (batch : list MergeCandidate) (relayer : nat -> AttemptOutcome)
    (st : CycleState)
    (Hpersistent : forall k, rateLimitedOnly (relayer k)) :
  exists st',
    executeBatch cfg batchNum batch relayer st = Some st'
    /\ executedBatches (trace st') =
         (executedBatches (trace st) ++ repeat (batchNum, batch) maxAttempts)%list
    /\ List.length (sleeps (trace st')) = (List.length (sleeps (trace st)) + 2)%nat
    /\ errorCount st' = (errorCount st + List.length batch)%nat
    /\ mergedCount st' = mergedCount st.
Proof.
  destruct (retryLoop_retries cfg batchNum batch relayer 2 1 0 st)
    as [st_a [Hrun [Hm [He [Hx [Hs _]]]]]]; [intros; apply Hpersistent | unfold maxAttempts; lia |].
  destruct (Hpersistent 2%nat) as [e [Hthrown [_ Hex]]].
  unfold executeBatch. change maxAttempts with (2 + 1)%nat at 1. rewrite Hrun.
  cbn [Nat.add].
  rewrite (retryLoop_failed cfg batchNum batch relayer 0 2 st_a e);
    [|unfold maxAttempts; lia | exact Hthrown | right; split; [exact Hex | reflexivity]].
  pose proof (tryBlock_effect batchNum batch (relayer 2%nat) st_a) as Heff.
  cbv zeta in Heff. rewrite Hthrown in Heff.
  destruct Heff as [Hx' [Hs' [_ [_ [He' Hm']]]]].
  eexists. split; [reflexivity|].
  cbn [addErrors trace errorCount mergedCount].
  rewrite Hx', Hx, Hs', Hs, He', He, Hm', Hm, <- app_assoc.
  repeat split; try reflexivity. lia.
Qed.

Lemma persistent_rate_limit_witness :
  exists st',
    executeBatch sampleConfig 1 [sampleCandidate "c" 15]
      (fun _ => ExecuteThrows (rateLimited "resets in 12 seconds"))
      (startOfCycle (initialQuota 0)) = Some st'
    /\ List.length (executedBatches (trace st')) = 3%nat
    /\ sleeps (trace st') = [17000; 17000]
    /\ errorCount st' = 1%nat /\ mergedCount st' = 0%nat.
Proof.
  destruct (persistent_rate_limit sampleConfig 1 [sampleCandidate "c" 15]
              (fun _ => ExecuteThrows (rateLimited "resets in 12 seconds"))
              (startOfCycle (initialQuota 0)))
    as [st' [Hrun [Hx [_ [He Hm]]]]].
  - intros k. exists (rateLimited "resets in 12 seconds").
    repeat split; reflexivity.
  - exists st'. split; [exact Hrun|]. rewrite Hx, He, Hm.
    vm_compute in Hrun. inversion Hrun. repeat split.
Defined.

(** C10.  Once the engine reaches an attempt whose submission is accepted
    and whose handle resolves to a result, the whole batch is added to the
    merged count whatever that result says (its [state] is only printed);
    when the handle resolves to nothing, the batch is added to the error
    count instead.  The attempts before it, if any, were rate-limited
    retries. *)
Theorem result_state_not_inspected (cfg : Config) (batchNum : nat)
    (batch : list MergeCandidate) (relayer : nat -> AttemptOutcome)
    (st : CycleState) (a : nat)
    (Ha : (a < maxAttempts)%nat)
    (Hretries : forall j, (j < a)%nat -> rateLimitedOnly (relayer j)) :
  (forall r, relayer a = WaitResult r ->
     exists st',
       executeBatch cfg batchNum batch relayer st = Some st'
       /\ mergedCount st' = (mergedCount st + List.length batch)%nat
       /\ errorCount st' = errorCount st)
  /\ (relayer a = WaitNoResult ->
      exists st',
        executeBatch cfg batchNum batch relayer st = Some st'
        /\ mergedCount st' = mergedCount st
        /\ errorCount st' = (errorCount st + List.length batch)%nat).
Proof.
  destruct (retryLoop_retries cfg batchNum batch relayer a (maxAttempts - a) 0 st)
    as [st_a [Hrun [Hm [He _]]]]; [intros; apply Hretries; lia | lia |].
  replace (a + (maxAttempts - a))%nat with maxAttempts in Hrun by lia.
  cbn [Nat.add] in Hrun.
  destruct (maxAttempts - a)%nat as [|fuel] eqn:Hfuel; [lia|].
  unfold executeBatch. rewrite Hrun.
  pose proof (tryBlock_effect batchNum batch (relayer a) st_a) as Heff.
  cbv zeta in Heff. destruct Heff as [_ [_ [_ [_ [He' Hm']]]]].
  split.
  - intros r Hr. rewrite retryLoop_done; [|exact Ha | rewrite Hr; reflexivity].
    eexists. split; [reflexivity|]. rewrite Hm', He', Hm, He, Hr. cbn. auto.
  - intros Hr.
    rewrite (retryLoop_failed cfg batchNum batch relayer fuel a st_a noResultError);
      [|exact Ha | rewrite Hr; reflexivity | left; reflexivity].
    eexists. split; [reflexivity|].
    cbn [addErrors mergedCount errorCount]. rewrite Hm', He', Hm, He, Hr. cbn. lia.
Qed.

Lemma result_state_not_inspected_witness :
  exists st',
    executeBatch sampleConfig 1 [sampleCandidate "a" 12; sampleCandidate "c" 15]
      (fun _ => WaitResult failedOnChain) (startOfCycle (initialQuota 0)) = Some st'
    /\ mergedCount st' = 2%nat /\ errorCount st' = 0%nat.
Proof.
  apply (result_state_not_inspected sampleConfig 1
           [sampleCandidate "a" 12; sampleCandidate "c" 15]
           (fun _ => WaitResult failedOnChain) (startOfCycle (initialQuota 0)) 0%nat)
    with (r := failedOnChain).
  - vm_compute. lia.
  - intros j Hj. lia.
  - reflexivity.
Defined.

Section EngineCounting.
Variable cfg : Config.
Variable batchNum : nat.
Variable batch : list MergeCandidate.
Variable relayer : nat -> AttemptOutcome.

Lemma backoff_some_429 (e : RelayError) (b : Z) :
  getRelayerBackoffMs e = Some b -> err_status e = Some 429.
Proof.
  unfold getRelayerBackoffMs. destruct (err_status e) as [s|]; [|discriminate].
  destruct (Z.eqb_spec s 429); [congruence | discriminate].
Qed.

Lemma count_accepted_cons (k n : nat) :
  Z.of_nat (count accepted (map relayer (seq k (S n)))) =
  (if accepted (relayer k) then 1 else 0)
  + Z.of_nat (count accepted (map relayer (seq (S k) n))).
Proof.
  unfold count. cbn [seq map filter].
  destruct (accepted (relayer k)); cbn [List.length]; lia.
Qed.

(** The loop from attempt [k]: it sends [n] submissions, and unless the
    relay reports exhaustion the counter goes up by the number of those
    that [relayer.execute] accepted. *)
Lemma retryLoop_counted (fuel : nat) :
  forall k st, (maxAttempts - k <= fuel)%nat ->
  exists n st',
    retryLoop cfg batchNum batch relayer fuel k st = Some st'
    /\ (n <= maxAttempts - k)%nat
    /\ ((k < maxAttempts)%nat -> (1 <= n)%nat)
    /\ executedBatches (trace st') =
         (executedBatches (trace st) ++ repeat (batchNum, batch) n)%list
    /\ ((forall j, (k <= j < k + n)%nat -> ~ reportsExhausted (relayer j)) ->
        callsThisHour (quotaTracker st') =
          callsThisHour (quotaTracker st)
          + Z.of_nat (count accepted (map relayer (seq k n))))
    /\ ((1 <= n)%nat -> reportsExhausted (relayer (k + n - 1)) ->
        callsThisHour (quotaTracker st') = HOURLY_QUOTA_LIMIT cfg).
Proof.
  induction fuel as [|fuel IH]; intros k st Hfuel.
  - exists 0%nat, st. cbn [retryLoop].
    destruct (Nat.ltb_spec k maxAttempts); [lia|].
    cbn. rewrite app_nil_r, Z.add_0_r. repeat split; auto; lia.
  - rewrite retryLoop_S.
    destruct (Nat.ltb_spec k maxAttempts) as [Hk|Hk].
    2:{ exists 0%nat, st. cbn. rewrite app_nil_r, Z.add_0_r.
        repeat split; auto; lia. }
    pose proof (tryBlock_thrown batchNum batch (relayer k) st) as Hth.
    pose proof (tryBlock_effect batchNum batch (relayer k) st) as Heff.
    cbv zeta in Heff. destruct Heff as [Hx [_ [Hc _]]].
    destruct (tryBlock batchNum batch (relayer k) st) as [st1 oe].
    cbn [fst snd] in *. subst oe.
    assert (Hone : Z.of_nat (count accepted (map relayer (seq k 1))) =
                   if accepted (relayer k) then 1 else 0).
    { rewrite count_accepted_cons. cbn. lia. }
    destruct (thrown (relayer k)) as [e|] eqn:Ht.
    + unfold catchBlock.
      destruct (getRelayerBackoffMs e) as [b|] eqn:Hb.
      * destruct (isQuotaExhausted e) eqn:Hex.
        -- (* exhaustion reported *)
           eexists 1%nat, _. split; [reflexivity|].
           cbn [addErrors setQuota trace quotaTracker markExhausted callsThisHour].
           rewrite executedBatches_app. cbn [executedBatches flat_map].
           rewrite app_nil_r.
           split; [lia|]. split; [lia|]. split; [exact Hx|]. split.
           ++ intros Hno. exfalso. apply (Hno k); [lia|].
              exists e. split; [exact Ht|]. split; [|exact Hex].
              eapply backoff_some_429, Hb.
           ++ reflexivity.
        -- destruct (Nat.ltb_spec (S k) maxAttempts) as [Hmore|Hlast].
           ++ (* retry *)
              destruct (IH (S k) (emit (EvSleep b) st1))
                as [n [st' [Hrun [Hn [Hn1 [Hx' [Hcount Hlim]]]]]]]; [lia|].
              exists (S n), st'. split; [exact Hrun|].
              cbn [emit trace quotaTracker] in *.
              rewrite executedBatches_app in Hx'. cbn [executedBatches flat_map] in Hx'.
              rewrite app_nil_r in Hx'.
              split; [lia|]. split; [lia|]. split; [|split].
              ** rewrite Hx', Hx, <- app_assoc. reflexivity.
              ** intros Hno. rewrite count_accepted_cons, Hcount, Hc; [lia|].
                 intros j Hj. apply Hno. lia.
              ** intros _ Hrep. apply Hlim; [lia|].
                 replace (S k + n - 1)%nat with (k + S n - 1)%nat by lia.
                 exact Hrep.
           ++ (* last attempt *)
              eexists 1%nat, _. split; [reflexivity|].
              cbn [addErrors trace quotaTracker].
              split; [lia|]. split; [lia|]. split; [exact Hx|]. split.
              ** intros _. rewrite Hone. exact Hc.
              ** intros _ [e' [Ht' [_ Hex']]].
                 replace (k + 1 - 1)%nat with k in Ht' by lia. congruence.
      * (* not a rate limit *)
        eexists 1%nat, _. split; [reflexivity|].
        cbn [addErrors trace quotaTracker].
        split; [lia|]. split; [lia|]. split; [exact Hx|]. split.
        -- intros _. rewrite Hone. exact Hc.
        -- intros _ [e' [Ht' [Hs' _]]].
           replace (k + 1 - 1)%nat with k in Ht' by lia.
           assert (e' = e) by congruence. subst e'.
           destruct (backoff_of_429 e Hs') as [b Hb']. congruence.
    + (* the try block ran to its break *)
      exists 1%nat, st1. split; [reflexivity|].
      split; [lia|]. split; [lia|]. split; [exact Hx|]. split.
      * intros _. rewrite Hone. exact Hc.
      * intros _ [e' [Ht' _]].
        replace (k + 1 - 1)%nat with k in Ht' by lia. congruence.
Qed.
End EngineCounting.

(** C1 (as the code has it).  The engine always finishes a batch, after
    between 1 and [maxAttempts] submissions.  Unless the relay reported the
    quota as used up (which overwrites the counter), the counter has then
    gone up by exactly the number of submissions for which
    [relayer.execute] returned a handle, whatever [wait] did afterwards; a
    submission that [relayer.execute] itself rejected is not counted. *)
Theorem submissions_counted (cfg : Config) (batchNum : nat)
    (batch : list MergeCandidate) (relayer : nat -> AttemptOutcome)
    (st : CycleState) :
  exists n st',
    executeBatch cfg batchNum batch relayer st = Some st'
    /\ (1 <= n <= maxAttempts)%nat
    /\ executedBatches (trace st') =
         (executedBatches (trace st) ++ repeat (batchNum, batch) n)%list
    /\ ((forall j, (j < n)%nat -> ~ reportsExhausted (relayer j)) ->
        callsThisHour (quotaTracker st') =
          callsThisHour (quotaTracker st)
          + Z.of_nat (count accepted (map relayer (seq 0 n)))).
Proof.
  destruct (retryLoop_counted cfg batchNum batch relayer maxAttempts 0 st)
    as [n [st' [Hrun [Hn [Hn1 [Hx [Hcount _]]]]]]]; [lia|].
  exists n, st'. split; [exact Hrun|].
  split; [split; [apply Hn1; unfold maxAttempts; lia | lia]|].
  split; [exact Hx|].
  intros Hno. apply Hcount. intros j Hj. apply Hno. lia.
Qed.

Lemma submissions_counted_witness :
  exists st',
    executeBatch sampleConfig 1 [sampleCandidate "c" 15]
      (fun k => if (k =? 0)%nat
                then WaitThrows (rateLimited "resets in 12 seconds")
                else ExecuteThrows (rateLimited "resets in 12 seconds"))
      (startOfCycle (initialQuota 0)) = Some st'
    /\ List.length (executedBatches (trace st')) = 3%nat
    /\ callsThisHour (quotaTracker st') = 1.
Proof.
  destruct (submissions_counted sampleConfig 1 [sampleCandidate "c" 15]
      (fun k => if (k =? 0)%nat
                then WaitThrows (rateLimited "resets in 12 seconds")
                else ExecuteThrows (rateLimited "resets in 12 seconds"))
      (startOfCycle (initialQuota 0)))
    as [n [st' [Hrun [_ [_ _]]]]].
  exists st'. split; [exact Hrun|].
  vm_compute in Hrun. inversion Hrun. split; reflexivity.
Defined.

(** C1, as stated, fails: three submissions are sent and rejected with a
    429 by [relayer.execute]; the counter is still 0 afterwards. *)
Lemma rejected_submissions_not_counted :
  exists st',
    executeBatch sampleConfig 1 [sampleCandidate "c" 15]
      (fun _ => ExecuteThrows (rateLimited "resets in 12 seconds"))
      (startOfCycle (initialQuota 0)) = Some st'
    /\ List.length (executedBatches (trace st')) = 3%nat
    /\ callsThisHour (quotaTracker st') = 0
    /\ callsThisHour (quotaTracker st')
       <> callsThisHour (initialQuota 0)
          + Z.of_nat (List.length (executedBatches (trace st'))).
Proof.
  eexists. split; [vm_compute; reflexivity|].
  vm_compute. repeat split; discriminate.
Qed.

(* ------------------------------------------------------------------ *)
(** ** The batch loop *)

Section CycleProperties.
Variable cfg : Config.
Variable env : CycleEnv.

Lemma batchLoop_S (cands : list MergeCandidate) (fuel i : nat) (st : CycleState) :
  batchLoop cfg env cands (S fuel) i st =
  if (i <? List.length cands)%nat then
    match checkQuota cfg (nowAtBatch env (batchNumber (BATCH_SIZE cfg) i)) st with
    | (false, st1) => Some (Completed st1)
    | (true, st1) =>
        let st1 :=
          emit (EvBatch (batchNumber (BATCH_SIZE cfg) i)
                  (totalBatches (BATCH_SIZE cfg) (List.length cands))
                  (slice cands i (i + BATCH_SIZE cfg))) st1 in
        match buildBatch (encoder env) (slice cands i (i + BATCH_SIZE cfg)) with
        | None => Some (Threw st1)
        | Some _ =>
            match executeBatch cfg (batchNumber (BATCH_SIZE cfg) i)
                    (slice cands i (i + BATCH_SIZE cfg))
                    (relay env (batchNumber (BATCH_SIZE cfg) i)) st1 with
            | None => None
            | Some st2 =>
                batchLoop cfg env cands fuel (i + BATCH_SIZE cfg)
                  (if (i + BATCH_SIZE cfg <? List.length cands)%nat
                   then emit (EvSleep (REQUEST_DELAY_MS cfg)) st2 else st2)
            end
        end
    end
  else Some (Completed st).
Proof. reflexivity. Qed.

Lemma checkQuota_eq (now : Z) (st : CycleState) :
  checkQuota cfg now st =
  (fst (checkAndUpdateQuota (HOURLY_QUOTA_LIMIT cfg) now (quotaTracker st)),
   setQuota (snd (checkAndUpdateQuota (HOURLY_QUOTA_LIMIT cfg) now (quotaTracker st))) st).
Proof.
  unfold checkQuota.
  destruct (checkAndUpdateQuota (HOURLY_QUOTA_LIMIT cfg) now (quotaTracker st)).
  reflexivity.
Qed.

(** The engine on a batch for which the relay, after [a] rate-limited
    attempts, reports the quota as used up. *)
Lemma executeBatch_exhausted (batchNum : nat) (batch : list MergeCandidate)
    (st : CycleState) (a : nat) :
  (a < maxAttempts)%nat ->
  (forall j, (j < a)%nat -> rateLimitedOnly (relay env batchNum j)) ->
  reportsExhausted (relay env batchNum a) ->
  exists st',
    executeBatch cfg batchNum batch (relay env batchNum) st = Some st'
    /\ callsThisHour (quotaTracker st') = (HOURLY_QUOTA_LIMIT cfg)
    /\ hourStartTime (quotaTracker st') = hourStartTime (quotaTracker st)
    /\ errorCount st' = (errorCount st + List.length batch)%nat
    /\ mergedCount st' = mergedCount st
    /\ executedBatches (trace st') =
         (executedBatches (trace st) ++ repeat (batchNum, batch) (S a))%list.
Proof.
  intros Ha Hretries Hexh.
  destruct (retryLoop_retries cfg batchNum batch (relay env batchNum)
              a (maxAttempts - a) 0 st)
    as [st_a [Hrun [Hm [He [Hx [_ Hh]]]]]]; [intros; apply Hretries; lia | lia |].
  replace (a + (maxAttempts - a))%nat with maxAttempts in Hrun by lia.
  cbn [Nat.add] in Hrun.
  destruct (maxAttempts - a)%nat as [|fuel] eqn:Hfuel; [lia|].
  unfold executeBatch. rewrite Hrun.
  rewrite (retryLoop_exhausted cfg batchNum batch (relay env batchNum) fuel a st_a Ha Hexh).
  pose proof (tryBlock_effect batchNum batch (relay env batchNum a) st_a) as Heff.
  cbv zeta in Heff. destruct Hexh as [e [Ht _]]. rewrite Ht in Heff.
  destruct Heff as [Hx' [_ [_ [Hh' [He' Hm']]]]].
  eexists. split; [reflexivity|].
  cbn [addErrors setQuota markExhausted quotaTracker callsThisHour hourStartTime
       errorCount mergedCount trace].
  rewrite executedBatches_app. cbn [executedBatches flat_map]. rewrite app_nil_r.
  rewrite Hx', Hx, Hh', Hh, He', He, Hm', Hm, <- app_assoc, <- repeat_cons.
  repeat split; try reflexivity. lia.
Qed.
End CycleProperties.

(** What the code gets right: when a started batch draws a 429 whose
    [data.error] holds "0 units remaining" and the next quota check still
    falls within the hour window, the counter is at the limit, the batch is
    in the error count and no later batch is submitted. *)
Lemma exhaustion_stops_within_window (cfg : Config) (env : CycleEnv)
    (cands : list MergeCandidate) (fuel i : nat) (st : CycleState) (a : nat)
    (Hi : (i < List.length cands)%nat)
    (Hquota : fst (checkAndUpdateQuota (HOURLY_QUOTA_LIMIT cfg)
                     (nowAtBatch env (batchNumber (BATCH_SIZE cfg) i))
                     (quotaTracker st)) = true)
    (Hbuild : buildBatch (encoder env) (slice cands i (i + BATCH_SIZE cfg)) <> None)
    (Ha : (a < maxAttempts)%nat)
    (Hretries : forall j, (j < a)%nat ->
        rateLimitedOnly (relay env (batchNumber (BATCH_SIZE cfg) i) j))
    (Hexhausted : reportsExhausted (relay env (batchNumber (BATCH_SIZE cfg) i) a))
    (Hwindow : (i + BATCH_SIZE cfg < List.length cands)%nat ->
        nowAtBatch env (batchNumber (BATCH_SIZE cfg) (i + BATCH_SIZE cfg))
        - hourStartTime
            (snd (checkAndUpdateQuota (HOURLY_QUOTA_LIMIT cfg)
                    (nowAtBatch env (batchNumber (BATCH_SIZE cfg) i))
                    (quotaTracker st))) < hourMs) :
  exists st',
    batchLoop cfg env cands (S (S fuel)) i st = Some (Completed st')
    /\ callsThisHour (quotaTracker st') = HOURLY_QUOTA_LIMIT cfg
    /\ errorCount st' =
         (errorCount st + List.length (slice cands i (i + BATCH_SIZE cfg)))%nat
    /\ mergedCount st' = mergedCount st
    /\ executedBatches (trace st') =
         (executedBatches (trace st)
          ++ repeat (batchNumber (BATCH_SIZE cfg) i,
                     slice cands i (i + BATCH_SIZE cfg)) (S a))%list.
Proof.
  rewrite batchLoop_S.
  destruct (Nat.ltb_spec i (List.length cands)) as [_|]; [|lia].
  rewrite checkQuota_eq, Hquota. cbv zeta.
  destruct (buildBatch (encoder env) (slice cands i (i + BATCH_SIZE cfg)));
    [|congruence].
  set (bn := batchNumber (BATCH_SIZE cfg) i) in *.
  set (q1 := snd (checkAndUpdateQuota (HOURLY_QUOTA_LIMIT cfg) (nowAtBatch env bn)
                    (quotaTracker st))) in *.
  match goal with
  | |- context [executeBatch cfg bn ?b (relay env bn) ?s] =>
      destruct (executeBatch_exhausted cfg env bn b s a Ha Hretries Hexhausted)
        as [st2 [Hrun [Hc [Hh [He [Hm Hx]]]]]]
  end.
  rewrite Hrun.
  cbn [emit setQuota quotaTracker errorCount mergedCount trace] in Hh, He, Hm, Hx.
  rewrite !executedBatches_app in Hx. cbn [executedBatches flat_map] in Hx.
  rewrite !app_nil_r in Hx.
  rewrite batchLoop_S.
  destruct (Nat.ltb_spec (i + BATCH_SIZE cfg) (List.length cands)) as [Hmore|Hlast].
  - rewrite checkQuota_eq. cbn [emit quotaTracker].
    rewrite checkAndUpdateQuota_within by (rewrite Hh; apply Hwindow, Hmore).
    cbn [fst snd]. rewrite Hc, Z.ltb_irrefl.
    eexists. split; [reflexivity|].
    cbn [setQuota emit quotaTracker errorCount mergedCount trace].
    rewrite !executedBatches_app. cbn [executedBatches flat_map].
    rewrite !app_nil_r. auto.
  - exists st2. auto.
Qed.

(** C7.  The code does not keep what the claim says, in two ways.
    (1) Two eligible markets, one per batch: the quota check before batch 1
    is made 5 s before the hour window ends; the relay answers the only
    submission of batch 1 with a 429 whose [data.error] holds "0 units
    remaining", and the counter is set to the limit; the check before
    batch 2 falls after the end of the window, resets the counter and
    passes, and batch 2 is submitted in the same cycle, although the handler
    has announced that all merges stop.  (2) A 429 whose text "0 units
    remaining" is in [message] (there is no [data]): [getRelayerBackoffMs]
    reads the text from [data.error], [error] or [message], the exhaustion
    test reads [data.error] only; the batch is submitted [maxAttempts]
    times and the counter is not set to the limit. *)
Lemma exhaustion_not_always_final :
  (exists st,
     cycle singleConfig rolloverEnv (initialQuota 0) = Some st
     /\ reportsExhausted (relay rolloverEnv 1 0)
     /\ executedBatches (trace st) = [(1%nat, [heldCandidate]); (2%nat, [otherCandidate])]
     /\ callsThisHour (quotaTracker st) = 1
     /\ mergedCount st = 1%nat /\ errorCount st = 1%nat)
  /\
  (exists st,
     executeBatch sampleConfig 1 [heldCandidate]
       (fun _ => ExecuteThrows (rateLimitedMessage "quota exceeded, 0 units remaining"))
       (startOfCycle (initialQuota 0)) = Some st
     /\ includes "0 units remaining"
          (errorText (rateLimitedMessage "quota exceeded, 0 units remaining")) = true
     /\ isQuotaExhausted (rateLimitedMessage "quota exceeded, 0 units remaining") = false
     /\ executedBatches (trace st) = repeat (1%nat, [heldCandidate]) 3
     /\ callsThisHour (quotaTracker st) = 0
     /\ callsThisHour (quotaTracker st) <> HOURLY_QUOTA_LIMIT sampleConfig).
Proof.
  split.
  - eexists. split; [vm_compute; reflexivity|].
    split; [|vm_compute; auto].
    exists (rateLimited "quota exceeded, 0 units remaining"). repeat split; reflexivity.
  - eexists. split; [vm_compute; reflexivity|].
    vm_compute. repeat split; discriminate.
Qed.

(* ------------------------------------------------------------------ *)
(** ** How far the counter can go *)

Section QuotaBound.
Variable cfg : Config.
Variable bound : Z.
Hypothesis Hbound : HOURLY_QUOTA_LIMIT cfg <= bound.

Lemma QuotaWithin_emit (ev : Event) (st : CycleState) :
  (forall q, ev <> EvQuota q) -> QuotaWithin bound st -> QuotaWithin bound (emit ev st).
Proof.
  intros Hev [Hc Hall]. split; [exact Hc|].
  cbn [emit trace]. rewrite quotaStates_app. apply Forall_app. split; [exact Hall|].
  destruct ev; cbn; auto. destruct (Hev q eq_refl).
Qed.

Lemma QuotaWithin_setQuota (q : QuotaTracker) (st : CycleState) :
  callsThisHour q <= bound -> QuotaWithin bound st -> QuotaWithin bound (setQuota q st).
Proof.
  intros Hq [_ Hall]. split; [exact Hq|].
  cbn [setQuota trace]. rewrite quotaStates_app. apply Forall_app. split; [exact Hall|].
  cbn. auto.
Qed.

Lemma QuotaWithin_addMerged (n : nat) (st : CycleState) :
  QuotaWithin bound st -> QuotaWithin bound (addMerged n st).
Proof. intros H. exact H. Qed.

Lemma QuotaWithin_addErrors (n : nat) (st : CycleState) :
  QuotaWithin bound st -> QuotaWithin bound (addErrors n st).
Proof. intros H. exact H. Qed.

(** The [try] block adds at most one. *)
Lemma tryBlock_within (batchNum : nat) (batch : list MergeCandidate)
    (o : AttemptOutcome) (st : CycleState) :
  QuotaWithin bound st ->
  callsThisHour (quotaTracker st) + 1 <= bound ->
  QuotaWithin bound (fst (tryBlock batchNum batch o st))
  /\ callsThisHour (quotaTracker (fst (tryBlock batchNum batch o st)))
     <= callsThisHour (quotaTracker st) + 1.
Proof.
  intros Hin Hroom.
  assert (Hsent : QuotaWithin bound (emit (EvExecute batchNum batch) st))
    by (apply QuotaWithin_emit; [not_a_write | exact Hin]).
  destruct o; cbn [tryBlock fst]; (split; [|cbn; lia]);
    auto using QuotaWithin_addMerged, QuotaWithin_setQuota.
Qed.

Lemma catchBlock_within (batch : list MergeCandidate) (attempts : nat)
    (e : RelayError) (st : CycleState) :
  QuotaWithin bound st ->
  QuotaWithin bound (fst (catchBlock cfg batch attempts e st))
  /\ (snd (catchBlock cfg batch attempts e st) = Continue ->
      quotaTracker (fst (catchBlock cfg batch attempts e st)) = quotaTracker st).
Proof.
  intros Hin. unfold catchBlock.
  destruct (getRelayerBackoffMs e) as [b|]; [|split; [exact Hin | discriminate]].
  destruct (isQuotaExhausted e).
  - split; [|discriminate]. apply QuotaWithin_addErrors, QuotaWithin_setQuota;
      [exact Hbound | exact Hin].
  - destruct (attempts <? maxAttempts)%nat; cbn [fst snd].
    + split; [|reflexivity]. apply QuotaWithin_emit; [not_a_write | exact Hin].
    + split; [exact Hin | discriminate].
Qed.

(** The retry loop, entered at attempt [k] with room for the attempts
    that may still come. *)
Lemma retryLoop_within (batchNum : nat) (batch : list MergeCandidate)
    (relayer : nat -> AttemptOutcome) (fuel : nat) :
  forall k st st',
    retryLoop cfg batchNum batch relayer fuel k st = Some st' ->
    QuotaWithin bound st ->
    callsThisHour (quotaTracker st) + Z.of_nat (maxAttempts - k) <= bound ->
    QuotaWithin bound st'.
Proof.
  induction fuel as [|fuel IH]; intros k st st' Hrun Hin Hroom.
  - cbn [retryLoop] in Hrun. destruct (k <? maxAttempts)%nat; [discriminate|].
    inversion Hrun; subst. exact Hin.
  - rewrite retryLoop_S in Hrun.
    destruct (Nat.ltb_spec k maxAttempts) as [Hk|Hk];
      [|inversion Hrun; subst; exact Hin].
    destruct (tryBlock_within batchNum batch (relayer k) st Hin) as [Hin1 Hc1]; [lia|].
    destruct (tryBlock batchNum batch (relayer k) st) as [st1 [e|]]; cbn [fst] in *.
    + destruct (catchBlock_within batch (S k) e st1 Hin1) as [Hin2 Hq2].
      destruct (catchBlock cfg batch (S k) e st1) as [st2 []]; cbn [fst snd] in *.
      * inversion Hrun; subst. exact Hin2.
      * apply (IH (S k) st2 st' Hrun Hin2). rewrite (Hq2 eq_refl). lia.
    + inversion Hrun; subst. exact Hin1.
Qed.

Lemma catchBlock_continue (batch : list MergeCandidate) (attempts : nat)
    (e : RelayError) (st : CycleState) :
  snd (catchBlock cfg batch attempts e st) = Continue ->
  err_status e = Some 429 /\ isQuotaExhausted e = false.
Proof.
  unfold catchBlock. destruct (getRelayerBackoffMs e) as [b|] eqn:Hb; [|discriminate].
  destruct (isQuotaExhausted e); [discriminate|].
  intros _. split; [eapply backoff_some_429, Hb | reflexivity].
Qed.

(** The retry loop when no accepted submission is ever retried: room for
    one more call is enough. *)
Lemma retryLoop_within_tight (batchNum : nat) (batch : list MergeCandidate)
    (relayer : nat -> AttemptOutcome) (fuel : nat) :
  NoRetryAfterAccept relayer ->
  forall k st st',
    retryLoop cfg batchNum batch relayer fuel k st = Some st' ->
    QuotaWithin bound st ->
    callsThisHour (quotaTracker st) + 1 <= bound ->
    QuotaWithin bound st'.
Proof.
  intros Hno.
  induction fuel as [|fuel IH]; intros k st st' Hrun Hin Hroom.
  - cbn [retryLoop] in Hrun. destruct (k <? maxAttempts)%nat; [discriminate|].
    inversion Hrun; subst. exact Hin.
  - rewrite retryLoop_S in Hrun.
    destruct (Nat.ltb_spec k maxAttempts) as [Hk|Hk];
      [|inversion Hrun; subst; exact Hin].
    destruct (tryBlock_within batchNum batch (relayer k) st Hin Hroom) as [Hin1 _].
    pose proof (tryBlock_thrown batchNum batch (relayer k) st) as Hth.
    pose proof (tryBlock_effect batchNum batch (relayer k) st) as Heff.
    cbv zeta in Heff. destruct Heff as [_ [_ [Hc1 _]]].
    destruct (tryBlock batchNum batch (relayer k) st) as [st1 [e|]]; cbn [fst snd] in *.
    + destruct (catchBlock_within batch (S k) e st1 Hin1) as [Hin2 Hq2].
      pose proof (catchBlock_continue batch (S k) e st1) as Hcont.
      destruct (catchBlock cfg batch (S k) e st1) as [st2 []]; cbn [fst snd] in *.
      * inversion Hrun; subst. exact Hin2.
      * apply (IH (S k) st2 st' Hrun Hin2). rewrite (Hq2 eq_refl), Hc1.
        destruct (accepted (relayer k)) eqn:Hacc; [|lia].
        exfalso. apply (Hno k Hacc). exists e.
        destruct (Hcont eq_refl) as [Hs Hex]. auto.
    + inversion Hrun; subst. exact Hin1.
Qed.
End QuotaBound.

Section LoopBound.
Variable cfg : Config.
Variable bound : Z.
(** What is known of the relay in every batch. *)
Variable P : (nat -> AttemptOutcome) -> Prop.
Hypothesis Hzero : 0 <= bound.
Hypothesis Hengine :
  forall batchNum batch relayer st st',
    P relayer ->
    executeBatch cfg batchNum batch relayer st = Some st' ->
    QuotaWithin bound st ->
    callsThisHour (quotaTracker st) < HOURLY_QUOTA_LIMIT cfg ->
    QuotaWithin bound st'.

Lemma checkQuota_within (now : Z) (st : CycleState) :
  QuotaWithin bound st ->
  QuotaWithin bound (snd (checkQuota cfg now st))
  /\ (fst (checkQuota cfg now st) = true ->
      callsThisHour (quotaTracker (snd (checkQuota cfg now st)))
      < HOURLY_QUOTA_LIMIT cfg).
Proof.
  intros Hin. rewrite checkQuota_eq. cbn [fst snd].
  split.
  - apply QuotaWithin_setQuota; [|exact Hin].
    destruct (checkAndUpdateQuota_calls (HOURLY_QUOTA_LIMIT cfg) now (quotaTracker st))
      as [E|E]; rewrite E; [apply Hin | exact Hzero].
  - intros Hok. cbn [setQuota quotaTracker].
    apply (checkAndUpdateQuota_true (HOURLY_QUOTA_LIMIT cfg) now (quotaTracker st)).
    rewrite <- Hok. apply surjective_pairing.
Qed.

Lemma batchLoop_within (env : CycleEnv) (cands : list MergeCandidate) (fuel : nat) :
  (forall n, P (relay env n)) ->
  forall i st e,
    batchLoop cfg env cands fuel i st = Some e ->
    QuotaWithin bound st -> QuotaWithin bound (endState e).
Proof.
  intros HP.
  induction fuel as [|fuel IH]; intros i st e Hrun Hin.
  - cbn [batchLoop] in Hrun. destruct (i <? List.length cands)%nat; [discriminate|].
    inversion Hrun; subst. exact Hin.
  - rewrite batchLoop_S in Hrun.
    destruct (i <? List.length cands)%nat; [|inversion Hrun; subst; exact Hin].
    destruct (checkQuota_within (nowAtBatch env (batchNumber (BATCH_SIZE cfg) i)) st Hin)
      as [Hin1 Hlt].
    destruct (checkQuota cfg (nowAtBatch env (batchNumber (BATCH_SIZE cfg) i)) st)
      as [[] st1]; cbn [fst snd] in *; [|inversion Hrun; subst; exact Hin1].
    specialize (Hlt eq_refl). cbv zeta in Hrun.
    assert (Hin1' : QuotaWithin bound
              (emit (EvBatch (batchNumber (BATCH_SIZE cfg) i)
                       (totalBatches (BATCH_SIZE cfg) (List.length cands))
                       (slice cands i (i + BATCH_SIZE cfg))) st1))
      by (apply QuotaWithin_emit; [not_a_write | exact Hin1]).
    destruct (buildBatch (encoder env) (slice cands i (i + BATCH_SIZE cfg)));
      [|inversion Hrun; subst; exact Hin1'].
    destruct (executeBatch cfg (batchNumber (BATCH_SIZE cfg) i)
                (slice cands i (i + BATCH_SIZE cfg))
                (relay env (batchNumber (BATCH_SIZE cfg) i)) _) as [st2|] eqn:Hexec;
      [|discriminate].
    assert (Hin2 : QuotaWithin bound st2).
    { apply (Hengine _ _ _ _ _ (HP _) Hexec Hin1' Hlt). }
    apply (IH _ _ _ Hrun).
    destruct (i + BATCH_SIZE cfg <? List.length cands)%nat; [|exact Hin2].
    apply QuotaWithin_emit; [not_a_write | exact Hin2].
Qed.

Lemma cycle_within (env : CycleEnv) (q : QuotaTracker) (st : CycleState) :
  (forall n, P (relay env n)) ->
  cycle cfg env q = Some st ->
  callsThisHour q <= bound -> QuotaWithin bound st.
Proof.
  intros HP Hrun Hq. unfold cycle in Hrun.
  assert (Hin0 : QuotaWithin bound (startOfCycle q)) by (split; [exact Hq | constructor]).
  destruct (checkQuota_within (nowAtStart env) (startOfCycle q) Hin0) as [Hin1 _].
  destruct (checkQuota cfg (nowAtStart env) (startOfCycle q)) as [[] st1];
    cbn [fst snd] in *.
  2:{ inversion Hrun; subst. apply QuotaWithin_emit; [not_a_write | exact Hin1]. }
  destruct (fetchMarkets env) as [markets|].
  2:{ inversion Hrun; subst. repeat (apply QuotaWithin_emit; [not_a_write|]).
      exact Hin1. }
  set (r := scanMarkets (MIN_MERGE_AMOUNT cfg) (readBalances env) markets) in *.
  assert (Hin2 : QuotaWithin bound
                   (emit (EvScanComplete (List.length (candidates r))
                            (skippedZero r) (skippedBelowMin r)) st1))
    by (apply QuotaWithin_emit; [not_a_write | exact Hin1]).
  destruct (List.length (candidates r) =? 0)%nat.
  { inversion Hrun; subst. apply QuotaWithin_emit; [not_a_write | exact Hin2]. }
  destruct (batchLoop cfg env (candidates r) (List.length (candidates r)) 0 _)
    as [e|] eqn:Hloop; [|discriminate].
  pose proof (batchLoop_within _ _ _ HP _ _ _ Hloop Hin2) as Hin3.
  destruct e as [st3|st3]; cbn [endState] in Hin3; inversion Hrun; subst;
    repeat (apply QuotaWithin_emit; [not_a_write|]); exact Hin3.
Qed.

Lemma mainLoop_within (envs : list CycleEnv) :
  Forall (fun env => forall n, P (relay env n)) envs ->
  forall q q' tr,
    mainLoop cfg envs q = Some (q', tr) ->
    callsThisHour q <= bound ->
    Forall (fun x => callsThisHour x <= bound) (quotaStates tr)
    /\ callsThisHour q' <= bound.
Proof.
  induction envs as [|env envs IH]; intros HP q q' tr Hrun Hq; cbn [mainLoop] in Hrun.
  - inversion Hrun; subst. split; [constructor | exact Hq].
  - inversion HP as [|? ? HPenv HPrest]; subst.
    destruct (cycle cfg env q) as [st|] eqn:Hc; [|discriminate].
    destruct (cycle_within env q st HPenv Hc Hq) as [Hq1 Hall1].
    destruct (mainLoop cfg envs (quotaTracker st)) as [[q2 tr2]|] eqn:Hrest;
      [|discriminate].
    inversion Hrun; subst.
    destruct (IH HPrest _ _ _ Hrest Hq1) as [Hall2 Hq2].
    split; [|exact Hq2]. rewrite quotaStates_app. apply Forall_app. auto.
Qed.
End LoopBound.

(* ------------------------------------------------------------------ *)
(** ** The loops finish *)

Section Totality.
Variable cfg : Config.
Hypothesis Hsize : (0 < BATCH_SIZE cfg)%nat.

Lemma batchLoop_total (env : CycleEnv) (cands : list MergeCandidate) (fuel : nat) :
  forall i st, (List.length cands - i <= fuel)%nat ->
  exists e, batchLoop cfg env cands fuel i st = Some e.
Proof.
  induction fuel as [|fuel IH]; intros i st Hfuel.
  - cbn [batchLoop]. destruct (Nat.ltb_spec i (List.length cands)); [lia | eauto].
  - rewrite batchLoop_S. destruct (i <? List.length cands)%nat; [|eauto].
    destruct (checkQuota cfg _ st) as [[] st1]; [|eauto]. cbv zeta.
    destruct (buildBatch (encoder env) (slice cands i (i + BATCH_SIZE cfg)));
      [|eauto].
    match goal with
    | |- context [executeBatch cfg ?n ?b ?r ?s] =>
        destruct (executeBatch_total cfg n b r s) as [st2 ->]
    end.
    apply IH. lia.
Qed.

Lemma cycle_total (env : CycleEnv) (q : QuotaTracker) :
  exists st, cycle cfg env q = Some st.
Proof.
  unfold cycle.
  destruct (checkQuota cfg (nowAtStart env) (startOfCycle q)) as [[] st1]; [|eauto].
  destruct (fetchMarkets env) as [markets|]; [|eauto].
  destruct (List.length (candidates _) =? 0)%nat; [eauto|].
  match goal with
  | |- context [batchLoop cfg env ?c ?f 0%nat ?s] =>
      destruct (batchLoop_total env c f 0%nat s) as [[st3|st3] ->]; [lia | eauto | eauto]
  end.
Qed.

Lemma mainLoop_total (envs : list CycleEnv) :
  forall q, exists r, mainLoop cfg envs q = Some r.
Proof.
  induction envs as [|env envs IH]; intros q; cbn [mainLoop]; [eauto|].
  destruct (cycle_total env q) as [st ->].
  destruct (IH (quotaTracker st)) as [[q' tr] ->]. eauto.
Qed.
End Totality.

(** C5 (as the code has it).  With a positive hourly limit and a positive
    batch size the merge loop runs through any number of cycles, and over
    all of them [callsThisHour] never exceeds the limit by more than
    [maxAttempts - 1] = 2: the quota is checked once per batch, not once per
    attempt.  It never exceeds the limit at all as long as no submission
    that the relay accepted is retried. *)
Theorem quota_bounded (cfg : Config) (envs : list CycleEnv) (t0 : Z)
    (Hlimit : 0 < HOURLY_QUOTA_LIMIT cfg)
    (Hsize : (0 < BATCH_SIZE cfg)%nat) :
  exists q' tr,
    mainLoop cfg envs (initialQuota t0) = Some (q', tr)
    /\ Forall (fun q => callsThisHour q
                        <= HOURLY_QUOTA_LIMIT cfg + Z.of_nat (maxAttempts - 1))
         (quotaStates tr)
    /\ callsThisHour q' <= HOURLY_QUOTA_LIMIT cfg + Z.of_nat (maxAttempts - 1)
    /\ (Forall (fun env => forall n, NoRetryAfterAccept (relay env n)) envs ->
        Forall (fun q => callsThisHour q <= HOURLY_QUOTA_LIMIT cfg) (quotaStates tr)
        /\ callsThisHour q' <= HOURLY_QUOTA_LIMIT cfg).
Proof.
  destruct (mainLoop_total cfg Hsize envs (initialQuota t0)) as [[q' tr] Hrun].
  exists q', tr. split; [exact Hrun|].
  set (loose := HOURLY_QUOTA_LIMIT cfg + Z.of_nat (maxAttempts - 1)).
  assert (Hloose_ge : HOURLY_QUOTA_LIMIT cfg <= loose) by (unfold loose; lia).
  assert (Hloose :
    Forall (fun q => callsThisHour q <= loose) (quotaStates tr)
    /\ callsThisHour q' <= loose).
  { apply (mainLoop_within cfg loose (fun _ => True)) with (envs := envs) (q := initialQuota t0).
    - unfold loose. lia.
    - intros batchNum batch relayer st st' _ Hexec Hin Hlt.
      apply (retryLoop_within cfg loose Hloose_ge batchNum batch relayer
               maxAttempts 0%nat st st' Hexec Hin).
      unfold loose, maxAttempts. cbn. lia.
    - apply Forall_forall. auto.
    - exact Hrun.
    - cbn. lia. }
  destruct Hloose as [Hall Hq]. split; [exact Hall|]. split; [exact Hq|].
  intros Hno.
  apply (mainLoop_within cfg (HOURLY_QUOTA_LIMIT cfg) NoRetryAfterAccept)
    with (envs := envs) (q := initialQuota t0).
  - lia.
  - intros batchNum batch relayer st st' HP Hexec Hin Hlt.
    apply (retryLoop_within_tight cfg (HOURLY_QUOTA_LIMIT cfg) ltac:(lia)
             batchNum batch relayer maxAttempts HP 0%nat st st' Hexec Hin).
    lia.
  - exact Hno.
  - exact Hrun.
  - cbn. lia.
Qed.

Lemma quota_bounded_witness :
  exists q' tr,
    mainLoop tightConfig [retryAfterAcceptEnv; exhaustedEnv] (initialQuota 0)
      = Some (q', tr)
    /\ Forall (fun q => callsThisHour q <= 3) (quotaStates tr)
    /\ callsThisHour q' <= 3.
Proof.
  destruct (quota_bounded tightConfig [retryAfterAcceptEnv; exhaustedEnv] 0)
    as [q' [tr [Hrun [Hall [Hq _]]]]].
  - simpl. lia.
  - simpl. lia.
  - exists q', tr. split; [exact Hrun|]. split; [exact Hall | exact Hq].
Defined.

(** C5, as stated, fails: with a limit of 1, a batch whose first submission
    is accepted and then rate-limited is submitted again, and the counter
    reaches 2 although the relay never reported the quota as used up. *)
Lemma quota_exceeds_limit :
  exists q' tr,
    mainLoop tightConfig [retryAfterAcceptEnv] (initialQuota 0) = Some (q', tr)
    /\ HOURLY_QUOTA_LIMIT tightConfig = 1
    /\ callsThisHour q' = 2
    /\ ~ (callsThisHour q' <= HOURLY_QUOTA_LIMIT tightConfig)
    /\ (forall n k, ~ reportsExhausted (relay retryAfterAcceptEnv n k)).
Proof.
  eexists _, _. split; [vm_compute; reflexivity|].
  split; [reflexivity|]. split; [reflexivity|]. split; [cbn; lia|].
  intros n k [e [Ht [_ Hex]]]. cbn in Ht.
  destruct (k =? 0)%nat; cbn in Ht; inversion Ht; subst.
  vm_compute in Hex. discriminate.
Qed.

(* ------------------------------------------------------------------ *)
(** ** What the cycle summary accounts for *)

Lemma checkAndUpdateQuota_false (limit now : Z) (q : QuotaTracker) :
  fst (checkAndUpdateQuota limit now q) = false ->
  limit <= callsThisHour (snd (checkAndUpdateQuota limit now q)).
Proof.
  unfold checkAndUpdateQuota.
  destruct (hourMs <=? now - hourStartTime q);
    match goal with |- context [limit <=? ?c] => destruct (Z.leb_spec limit c) end;
    cbn in *; intros; congruence || lia.
Qed.


Lemma formedBatches_app (t1 t2 : list Event) :
  formedBatches (t1 ++ t2) = (formedBatches t1 ++ formedBatches t2)%list.
Proof. apply flat_map_app. Qed.

Lemma cycleEnds_app (t1 t2 : list Event) :
  cycleEnds (t1 ++ t2) = (cycleEnds t1 ++ cycleEnds t2)%list.
Proof. apply flat_map_app. Qed.

Lemma countedIn_cons (o o' : bool) (outs : list bool)
    (b : list MergeCandidate) (bs : list (list MergeCandidate)) :
  List.length (countedIn o (o' :: outs) (b :: bs))
  = ((if Bool.eqb o' o then List.length b else 0)
     + List.length (countedIn o outs bs))%nat.
Proof.
  unfold countedIn. cbn [combine filter fst].
  destruct (Bool.eqb o' o); cbn [map snd List.concat]; [|reflexivity].
  apply length_app.
Qed.


Section Accounting.
Variable cfg : Config.
Hypothesis Hsize : (0 < BATCH_SIZE cfg)%nat.

(** However the engine leaves a batch, the batch is in exactly one of the
    two counts, and the engine forms no batch of its own. *)
Lemma retryLoop_accounting (batchNum : nat) (batch : list MergeCandidate)
    (relayer : nat -> AttemptOutcome) (fuel : nat) :
  forall k st st',
    (k < maxAttempts)%nat ->
    retryLoop cfg batchNum batch relayer fuel k st = Some st' ->
    (formedBatches (trace st') = formedBatches (trace st)
     /\ cycleEnds (trace st') = cycleEnds (trace st))
    /\ exists o : bool,
         mergedCount st' = (mergedCount st + if o then List.length batch else 0)%nat
         /\ errorCount st' = (errorCount st + if o then 0 else List.length batch)%nat.
Proof.
  clear Hsize.
  induction fuel as [|fuel IH]; intros k st st' Hk Hrun.
  - cbn [retryLoop] in Hrun. destruct (Nat.ltb_spec k maxAttempts); [discriminate | lia].
  - rewrite retryLoop_S in Hrun.
    destruct (Nat.ltb_spec k maxAttempts); [|lia].
    pose proof (tryBlock_thrown batchNum batch (relayer k) st) as Hth.
    pose proof (tryBlock_effect batchNum batch (relayer k) st) as Heff.
    cbv zeta in Heff. destruct Heff as [_ [_ [_ [_ [He Hm]]]]].
    assert (Hf : formedBatches (trace (fst (tryBlock batchNum batch (relayer k) st)))
                 = formedBatches (trace st)
                 /\ cycleEnds (trace (fst (tryBlock batchNum batch (relayer k) st)))
                    = cycleEnds (trace st)).
    { destruct (relayer k); cbn; rewrite ?formedBatches_app, ?cycleEnds_app; cbn;
        rewrite ?app_nil_r; auto. }
    destruct (tryBlock batchNum batch (relayer k) st) as [st1 oe].
    cbn [fst snd] in *. subst oe.
    destruct (thrown (relayer k)) as [e|].
    + unfold catchBlock in Hrun.
      destruct (getRelayerBackoffMs e) as [b|].
      * destruct (isQuotaExhausted e).
        -- inversion Hrun; subst. cbn. rewrite formedBatches_app, cycleEnds_app. cbn.
           rewrite !app_nil_r. split; [exact Hf|]. exists false. lia.
        -- destruct (Nat.ltb_spec (S k) maxAttempts) as [Hmore|].
           ++ destruct (IH _ _ _ Hmore Hrun) as [[Hf' Hc'] [o [Hm' He']]].
              cbn [emit trace mergedCount errorCount] in Hf', Hc', Hm', He'.
              rewrite formedBatches_app in Hf'. cbn in Hf'. rewrite app_nil_r in Hf'.
              rewrite cycleEnds_app in Hc'. cbn in Hc'. rewrite app_nil_r in Hc'.
              destruct Hf as [Hf Hc].
              split; [split; congruence|]. exists o. lia.
           ++ inversion Hrun; subst. cbn. split; [exact Hf|]. exists false. lia.
      * inversion Hrun; subst. cbn. split; [exact Hf|]. exists false. lia.
    + inversion Hrun; subst. split; [exact Hf|]. exists true. lia.
Qed.

Variable env : CycleEnv.
Variable cands : list MergeCandidate.

Lemma batch_index_bound (j : nat) :
  (j * BATCH_SIZE cfg < List.length cands)%nat
  <-> (j < totalBatches (BATCH_SIZE cfg) (List.length cands))%nat.
Proof.
  destruct (Nat.eq_dec (List.length cands) 0) as [E|E].
  - rewrite E, (totalBatches_zero _ Hsize). lia.
  - destruct (totalBatches_ceil _ Hsize (List.length cands) ltac:(lia)) as [Hlo Hhi].
    split; intros H; nia.
Qed.

(** The batch loop from batch index [j]: it forms the next [f] chunks of
    the candidate list, in order; the engine has dealt with the first
    [length outs] of them, each counted in exactly one of the two counts;
    it stops short of the last chunk only when the quota has run out or
    when building a batch threw. *)
Lemma batchLoop_run (fuel : nat) :
  forall j st e,
    batchLoop cfg env cands fuel (j * BATCH_SIZE cfg) st = Some e ->
    exists (outs : list bool) (f : nat),
      let chunk := fun k => slice cands (k * BATCH_SIZE cfg)
                              (k * BATCH_SIZE cfg + BATCH_SIZE cfg) in
      (j + f <= Nat.max j (totalBatches (BATCH_SIZE cfg) (List.length cands)))%nat
      /\ formedBatches (trace (endState e))
         = (formedBatches (trace st) ++ map chunk (seq j f))%list
      /\ cycleEnds (trace (endState e)) = cycleEnds (trace st)
      /\ mergedCount (endState e)
         = (mergedCount st
            + List.length (countedIn true outs (map chunk (seq j (List.length outs)))))%nat
      /\ errorCount (endState e)
         = (errorCount st
            + List.length (countedIn false outs (map chunk (seq j (List.length outs)))))%nat
      /\ match e with
         | Completed st' =>
             f = List.length outs
             /\ ((j + f < totalBatches (BATCH_SIZE cfg) (List.length cands))%nat ->
                 HOURLY_QUOTA_LIMIT cfg <= callsThisHour (quotaTracker st'))
         | Threw _ =>
             f = S (List.length outs)
             /\ buildBatch (encoder env) (chunk (j + List.length outs)%nat) = None
         end.
Proof.
  induction fuel as [|fuel IH]; intros j st e Hrun.
  - cbn [batchLoop] in Hrun.
    destruct (Nat.ltb_spec (j * BATCH_SIZE cfg) (List.length cands)) as [Hi|Hi];
      [discriminate|].
    inversion Hrun; subst. exists [], 0%nat. cbn [List.length seq map endState].
    rewrite app_nil_r. repeat split; try (cbn; lia).
    intros Hlt. apply batch_index_bound in Hlt. lia.
  - rewrite batchLoop_S in Hrun.
    destruct (Nat.ltb_spec (j * BATCH_SIZE cfg) (List.length cands)) as [Hi|Hi].
    2:{ inversion Hrun; subst. exists [], 0%nat. cbn [List.length seq map endState].
        rewrite app_nil_r. repeat split; try (cbn; lia).
        intros Hlt. apply batch_index_bound in Hlt. lia. }
    pose proof (proj1 (batch_index_bound j) Hi) as Hj.
    rewrite checkQuota_eq in Hrun.
    destruct (fst (checkAndUpdateQuota (HOURLY_QUOTA_LIMIT cfg)
                     (nowAtBatch env (batchNumber (BATCH_SIZE cfg) (j * BATCH_SIZE cfg)))
                     (quotaTracker st))) eqn:Hok.
    2:{ inversion Hrun; subst. exists [], 0%nat.
        cbn [List.length seq map endState setQuota trace mergedCount errorCount].
        rewrite formedBatches_app, cycleEnds_app.
        cbn [formedBatches cycleEnds flat_map]. rewrite !app_nil_r.
        repeat split; try (cbn; lia).
        intros _. cbn [quotaTracker]. apply checkAndUpdateQuota_false, Hok. }
    cbv zeta in Hrun.
    destruct (buildBatch (encoder env)
                (slice cands (j * BATCH_SIZE cfg) (j * BATCH_SIZE cfg + BATCH_SIZE cfg)))
      as [txs|] eqn:Hbuild.
    2:{ inversion Hrun; subst. exists [], 1%nat.
        cbn [List.length seq map endState emit setQuota trace mergedCount errorCount].
        rewrite !formedBatches_app, !cycleEnds_app.
        cbn [formedBatches cycleEnds flat_map]. rewrite !app_nil_r.
        replace (j + 0)%nat with j by lia.
        repeat split; try (cbn; lia). exact Hbuild. }
    destruct (executeBatch cfg _ _ _ _) as [st2|] eqn:Hexec; [|discriminate].
    apply retryLoop_accounting in Hexec; [|unfold maxAttempts; lia].
    destruct Hexec as [[Hf2 Hc2] [o [Hm2 He2]]].
    cbn [emit setQuota trace mergedCount errorCount] in Hf2, Hc2, Hm2, He2.
    rewrite !formedBatches_app in Hf2. cbn [formedBatches flat_map] in Hf2.
    rewrite !app_nil_r in Hf2.
    rewrite !cycleEnds_app in Hc2. cbn [cycleEnds flat_map] in Hc2.
    rewrite !app_nil_r in Hc2.
    replace (j * BATCH_SIZE cfg + BATCH_SIZE cfg)%nat with (S j * BATCH_SIZE cfg)%nat
      in Hrun by lia.
    destruct (IH _ _ _ Hrun) as [outs [f [Hb [Hf [Hc [Hm [He Hend]]]]]]].
    cbv zeta in Hb, Hf, Hc, Hm, He, Hend.
    assert (Hsame : forall s : CycleState,
              let s' := if (S j * BATCH_SIZE cfg <? List.length cands)%nat
                        then emit (EvSleep (REQUEST_DELAY_MS cfg)) s else s in
              formedBatches (trace s') = formedBatches (trace s)
              /\ cycleEnds (trace s') = cycleEnds (trace s)
              /\ mergedCount s' = mergedCount s /\ errorCount s' = errorCount s).
    { intros s. cbv zeta. destruct (S j * BATCH_SIZE cfg <? List.length cands)%nat;
        cbn [emit trace mergedCount errorCount];
        rewrite ?formedBatches_app, ?cycleEnds_app; cbn;
        rewrite ?app_nil_r; auto. }
    destruct (Hsame st2) as [Hs1 [Hs0 [Hs2 Hs3]]]. cbv zeta in Hs0, Hs1, Hs2, Hs3.
    rewrite Hs1 in Hf. rewrite Hs0 in Hc. rewrite Hs2 in Hm. rewrite Hs3 in He.
    exists (o :: outs), (S f). cbv zeta.
    cbn [List.length seq map]. rewrite !countedIn_cons.
    split; [lia|].
    split; [rewrite Hf, Hf2, <- app_assoc; reflexivity|].
    split; [congruence|].
    split; [rewrite Hm, Hm2; destruct o; cbn [Bool.eqb]; lia|].
    split; [rewrite He, He2; destruct o; cbn [Bool.eqb]; lia|].
    destruct e as [st'|st'].
    + destruct Hend as [Hfo Hq]. split; [lia|]. intros Hlt. apply Hq. lia.
    + destruct Hend as [Hfo Hnone]. split; [lia|].
      replace (j + S (List.length outs))%nat with (S j + List.length outs)%nat by lia.
      exact Hnone.
Qed.
End Accounting.

(* ------------------------------------------------------------------ *)
(** ** Traces only grow *)















(* ------------------------------------------------------------------ *)
(** ** The batches the loop forms *)

(** C3.  With a positive batch size, the chunks the batch loop of a cycle
    slices off the candidate list are [Math.ceil(n / size)] in number (for a
    non-empty list this is the ceiling of [n / size]; for the empty list
    there is none), each holds between 1 and [size] candidates, and put end
    to end in order they are the candidate list.  The loop always comes to
    an end and forms these chunks in this order, one per turn; it forms all
    of them unless the quota runs out or the building of a batch throws. *)
Theorem batches_partition (cfg : Config) (env : CycleEnv)
    (cands : list MergeCandidate) (st : CycleState)
    (Hsize : (0 < BATCH_SIZE cfg)%nat) :
  let size := BATCH_SIZE cfg in
  let all := spec_batches size cands in
  List.length all = totalBatches size (List.length cands)
  /\ (cands <> [] ->
      (size * (List.length all - 1) < List.length cands <= size * List.length all)%nat)
  /\ Forall (fun b => (0 < List.length b <= size)%nat) all
  /\ List.concat all = cands
  /\ (cands = [] -> all = [])
  /\ exists e f,
       batchLoop cfg env cands (List.length cands) 0 st = Some e
       /\ formedBatches (trace (endState e))
          = (formedBatches (trace st) ++ firstn f all)%list
       /\ (f <= List.length all)%nat
       /\ (f = List.length all
           \/ (exists st', e = Threw st')
           \/ HOURLY_QUOTA_LIMIT cfg <= callsThisHour (quotaTracker (endState e))).
Proof.
  intros size all.
  assert (Hlen : List.length all = totalBatches size (List.length cands))
    by apply spec_batches_length.
  split; [exact Hlen|].
  split.
  { intros Hne. rewrite Hlen. apply (totalBatches_ceil size Hsize).
    destruct cands; [congruence | cbn; lia]. }
  split; [apply (spec_batches_sizes size Hsize)|].
  split; [apply (spec_batches_concat size Hsize)|].
  split.
  { intros ->. unfold all, spec_batches. cbn [List.length].
    rewrite (totalBatches_zero size Hsize). reflexivity. }
  destruct (batchLoop_total cfg Hsize env cands (List.length cands) 0%nat st)
    as [e Hloop]; [lia|].
  pose proof Hloop as Hrun.
  change 0%nat with (0 * BATCH_SIZE cfg)%nat in Hloop at 1.
  destruct (batchLoop_run cfg Hsize env cands _ _ _ _ Hloop)
    as [outs [f [Hb [Hf [_ [_ [_ Hend]]]]]]].
  cbv zeta in Hb, Hf, Hend. rewrite Nat.max_0_l in Hb. cbn [Nat.add] in Hb, Hend.
  fold size in Hb, Hf, Hend. rewrite <- Hlen in Hb, Hend.
  exists e, f. split; [exact Hrun|].
  split; [rewrite Hf; unfold all; rewrite spec_batches_firstn by (rewrite <- Hlen; exact Hb);
          reflexivity|].
  split; [exact Hb|].
  destruct e as [st'|st']; cbn [endState].
  - destruct Hend as [_ Hq].
    destruct (Nat.eq_dec f (List.length all)) as [E|E]; [left; exact E|].
    right. right. apply Hq. lia.
  - right. left. exists st'. reflexivity.
Qed.

Lemma batches_partition_witness :
  map (@List.length MergeCandidate) (spec_batches 10 (repeat heldCandidate 23))
  = [10; 10; 3]%nat
  /\ exists e,
       batchLoop sampleConfig twentyThreeEnv (repeat heldCandidate 23) 23 0
         (startOfCycle (initialQuota 0)) = Some e
       /\ map (@List.length MergeCandidate) (formedBatches (trace (endState e)))
          = [10; 10; 3]%nat.
Proof.
  split; [vm_compute; reflexivity|].
  destruct (batches_partition sampleConfig twentyThreeEnv (repeat heldCandidate 23)
              (startOfCycle (initialQuota 0))) as [_ [_ [_ [_ [_ [e [f [Hrun _]]]]]]]].
  - simpl. lia.
  - exists e. split; [exact Hrun|].
    vm_compute in Hrun. injection Hrun as <-. vm_compute. reflexivity.
Defined.

(* ================================================================== *)
(** * Further properties of the worker *)

(* ------------------------------------------------------------------ *)
(** ** Quota tracker and backoff *)

(** X1.  Checking the quota twice at the same instant is the same as
    checking it once, and the answer is [true] exactly when the counter the
    check leaves behind is below the limit. *)
Theorem checkAndUpdateQuota_idempotent (limit now : Z) (q : QuotaTracker) :
  checkAndUpdateQuota limit now (snd (checkAndUpdateQuota limit now q))
    = checkAndUpdateQuota limit now q
  /\ fst (checkAndUpdateQuota limit now q)
     = (callsThisHour (snd (checkAndUpdateQuota limit now q)) <? limit).
Proof.
  destruct (Z.le_gt_cases hourMs (now - hourStartTime q)) as [Hel|Hwin].
  - rewrite (checkAndUpdateQuota_elapsed limit now q Hel). cbn [fst snd callsThisHour].
    split; [|reflexivity].
    rewrite checkAndUpdateQuota_within by (cbn; unfold hourMs; lia). reflexivity.
  - rewrite (checkAndUpdateQuota_within limit now q) by lia. cbn [fst snd].
    split; [|reflexivity].
    rewrite checkAndUpdateQuota_within by lia. reflexivity.
Qed.

Lemma numberFrom_nonneg (ds : string) :
  forall acc, allDigits ds = true -> 0 <= acc -> 0 <= numberFrom acc ds.
Proof.
  induction ds as [|c ds IH]; intros acc Hall Hacc;
    cbn [allDigits numberFrom] in *; [exact Hacc|].
  apply andb_true_iff in Hall as [Hc Hall]. apply IH; [exact Hall|].
  unfold isDigit in Hc. cbv zeta in Hc. apply andb_true_iff in Hc as [Hlo _].
  apply Nat.leb_le in Hlo. lia.
Qed.

Lemma backoff_ge_5000 (e : RelayError) (b : Z) :
  getRelayerBackoffMs e = Some b -> 5000 <= b.
Proof.
  intros Hb. unfold getRelayerBackoffMs in Hb.
  destruct (err_status e) as [s|]; [|discriminate].
  destruct (s =? 429); [|discriminate].
  destruct (regexExec (errorText e)) as [ds|] eqn:Hre; inversion Hb; subst; [|lia].
  destruct (regexExec_sound _ _ Hre) as [pre [post [r [s' [_ [_ [_ [Hds _]]]]]]]].
  pose proof (numberFrom_nonneg ds 0 Hds ltac:(lia)) as Hn.
  unfold Number. lia.
Qed.

Lemma backoff_none_iff (e : RelayError) :
  getRelayerBackoffMs e = None <-> err_status e <> Some 429.
Proof.
  split.
  - intros Hnone Hs. destruct (backoff_of_429 e Hs) as [b Hb]. congruence.
  - intros Hs. destruct (getRelayerBackoffMs e) as [b|] eqn:Hb; [|reflexivity].
    destruct (Hs (backoff_some_429 e b Hb)).
Qed.

(** X2.  An error gets a backoff exactly when its status is 429, and a
    backoff is never shorter than five seconds. *)
Theorem backoff_at_least_five_seconds (e : RelayError) :
  (forall b, getRelayerBackoffMs e = Some b ->
     err_status e = Some 429 /\ 5000 <= b)
  /\ (getRelayerBackoffMs e = None <-> err_status e <> Some 429).
Proof.
  split.
  - intros b Hb. split; [eapply backoff_some_429, Hb | eapply backoff_ge_5000, Hb].
  - apply backoff_none_iff.
Qed.

(* ------------------------------------------------------------------ *)
(** ** Execution engine *)

(** X3.  An error whose status is not 429 ends the batch at once: the
    submission that raised it is the last one, no backoff sleep follows it,
    and the batch is added to the error count.  The attempts before it, if
    any, were rate-limited retries. *)
Theorem non_rate_limit_error_not_retried (cfg : Config) (batchNum : nat)
    (batch : list MergeCandidate) (relayer : nat -> AttemptOutcome)
    (st : CycleState) (a : nat) (e : RelayError)
    (Ha : (a < maxAttempts)%nat)
    (Hretries : forall j, (j < a)%nat -> rateLimitedOnly (relayer j))
    (Hthrown : thrown (relayer a) = Some e)
    (Hstatus : err_status e <> Some 429) :
  exists st',
    executeBatch cfg batchNum batch relayer st = Some st'
    /\ executedBatches (trace st') =
         (executedBatches (trace st) ++ repeat (batchNum, batch) (S a))%list
    /\ List.length (sleeps (trace st')) = (List.length (sleeps (trace st)) + a)%nat
    /\ errorCount st' = (errorCount st + List.length batch)%nat
    /\ mergedCount st' = mergedCount st.
Proof.
  destruct (retryLoop_retries cfg batchNum batch relayer a (maxAttempts - a) 0 st)
    as [st_a [Hrun [Hm [He [Hx [Hs _]]]]]]; [intros; apply Hretries; lia | lia |].
  replace (a + (maxAttempts - a))%nat with maxAttempts in Hrun by lia.
  cbn [Nat.add] in Hrun.
  destruct (maxAttempts - a)%nat as [|fuel] eqn:Hfuel; [lia|].
  unfold executeBatch. rewrite Hrun.
  rewrite (retryLoop_failed cfg batchNum batch relayer fuel a st_a e Ha Hthrown).
  2:{ left. apply backoff_none_iff. exact Hstatus. }
  pose proof (tryBlock_effect batchNum batch (relayer a) st_a) as Heff.
  cbv zeta in Heff. rewrite Hthrown in Heff.
  destruct Heff as [Hx' [Hs' [_ [_ [He' Hm']]]]].
  eexists. split; [reflexivity|].
  cbn [addErrors trace errorCount mergedCount].
  rewrite Hx', Hx, Hs', Hs, He', He, Hm', Hm, <- app_assoc, <- repeat_cons.
  repeat split; try reflexivity. lia.
Qed.

Lemma non_rate_limit_error_not_retried_witness :
  exists st',
    executeBatch sampleConfig 1 [sampleCandidate "c" 15]
      (fun _ => ExecuteThrows (serverError "resets in 12 seconds"))
      (startOfCycle (initialQuota 0)) = Some st'
    /\ List.length (executedBatches (trace st')) = 1%nat
    /\ sleeps (trace st') = []
    /\ errorCount st' = 1%nat.
Proof.
  destruct (non_rate_limit_error_not_retried sampleConfig 1 [sampleCandidate "c" 15]
              (fun _ => ExecuteThrows (serverError "resets in 12 seconds"))
              (startOfCycle (initialQuota 0)) 0
              (serverError "resets in 12 seconds"))
    as [st' [Hrun [Hx [_ [He _]]]]].
  - unfold maxAttempts. lia.
  - intros j Hj. lia.
  - reflexivity.
  - simpl. discriminate.
  - exists st'. split; [exact Hrun|]. rewrite Hx, He.
    vm_compute in Hrun. inversion Hrun. repeat split.
Defined.

Lemma backoff_at_least_five_seconds_witness :
  getRelayerBackoffMs (rateLimited "resets in 0 seconds") = Some 5000
  /\ err_status (rateLimited "resets in 0 seconds") = Some 429
  /\ getRelayerBackoffMs (serverError "resets in 0 seconds") = None.
Proof.
  split; [reflexivity|]. split.
  - apply (backoff_at_least_five_seconds (rateLimited "resets in 0 seconds"))
      with (b := 5000). reflexivity.
  - apply (backoff_at_least_five_seconds (serverError "resets in 0 seconds")).
    simpl. discriminate.
Defined.

Section EnginePacing.
Variable cfg : Config.
Variable batchNum : nat.
Variable batch : list MergeCandidate.
Variable relayer : nat -> AttemptOutcome.

(** Leaving the loop from attempt [k]: the batch lands in exactly one of
    the two counts. *)
Lemma retryLoop_once (fuel : nat) :
  forall k st st',
    (k < maxAttempts)%nat ->
    retryLoop cfg batchNum batch relayer fuel k st = Some st' ->
    (mergedCount st' = (mergedCount st + List.length batch)%nat
     /\ errorCount st' = errorCount st)
    \/ (mergedCount st' = mergedCount st
        /\ errorCount st' = (errorCount st + List.length batch)%nat).
Proof.
  induction fuel as [|fuel IH]; intros k st st' Hk Hrun.
  - cbn [retryLoop] in Hrun. destruct (Nat.ltb_spec k maxAttempts); [discriminate | lia].
  - rewrite retryLoop_S in Hrun.
    destruct (Nat.ltb_spec k maxAttempts); [|lia].
    pose proof (tryBlock_thrown batchNum batch (relayer k) st) as Hth.
    pose proof (tryBlock_effect batchNum batch (relayer k) st) as Heff.
    cbv zeta in Heff. destruct Heff as [_ [_ [_ [_ [He Hm]]]]].
    destruct (tryBlock batchNum batch (relayer k) st) as [st1 oe].
    cbn [fst snd] in *. subst oe.
    destruct (thrown (relayer k)) as [e|].
    + rewrite Nat.add_0_r in Hm. unfold catchBlock in Hrun.
      destruct (getRelayerBackoffMs e) as [b|].
      * destruct (isQuotaExhausted e).
        -- inversion Hrun; subst. right. cbn. rewrite Hm, He. auto.
        -- destruct (Nat.ltb_spec (S k) maxAttempts) as [Hmore|].
           ++ destruct (IH _ _ _ Hmore Hrun) as [[H1 H2]|[H1 H2]];
                cbn [emit mergedCount errorCount] in H1, H2;
                rewrite H1, H2, Hm, He; auto.
           ++ inversion Hrun; subst. right. cbn. rewrite Hm, He. auto.
      * inversion Hrun; subst. right. cbn. rewrite Hm, He. auto.
    + inversion Hrun; subst. left. auto.
Qed.

(** The loop from attempt [k]: [n] submissions, [n - 1] sleeps between
    them, none shorter than five seconds; the window start is left alone. *)
Lemma retryLoop_paced (fuel : nat) :
  forall k st,
    (maxAttempts - k <= fuel)%nat -> (k < maxAttempts)%nat ->
    exists n st' pauses,
      retryLoop cfg batchNum batch relayer fuel k st = Some st'
      /\ (1 <= n <= maxAttempts - k)%nat
      /\ executedBatches (trace st') =
           (executedBatches (trace st) ++ repeat (batchNum, batch) n)%list
      /\ sleeps (trace st') = (sleeps (trace st) ++ pauses)%list
      /\ S (List.length pauses) = n
      /\ Forall (fun ms => 5000 <= ms) pauses
      /\ hourStartTime (quotaTracker st') = hourStartTime (quotaTracker st).
Proof.
  induction fuel as [|fuel IH]; intros k st Hfuel Hk; [lia|].
  rewrite retryLoop_S.
  destruct (Nat.ltb_spec k maxAttempts); [|lia].
  pose proof (tryBlock_thrown batchNum batch (relayer k) st) as Hth.
  pose proof (tryBlock_effect batchNum batch (relayer k) st) as Heff.
  cbv zeta in Heff. destruct Heff as [Hx [Hs [_ [Hh _]]]].
  destruct (tryBlock batchNum batch (relayer k) st) as [st1 oe].
  cbn [fst snd] in *. subst oe.
  assert (Hlast : forall st2,
            executedBatches (trace st2) = executedBatches (trace st1) ->
            sleeps (trace st2) = sleeps (trace st1) ->
            hourStartTime (quotaTracker st2) = hourStartTime (quotaTracker st1) ->
            exists n st' pauses,
              Some st2 = Some st'
              /\ (1 <= n <= maxAttempts - k)%nat
              /\ executedBatches (trace st') =
                   (executedBatches (trace st) ++ repeat (batchNum, batch) n)%list
              /\ sleeps (trace st') = (sleeps (trace st) ++ pauses)%list
              /\ S (List.length pauses) = n
              /\ Forall (fun ms => 5000 <= ms) pauses
              /\ hourStartTime (quotaTracker st') = hourStartTime (quotaTracker st)).
  { intros st2 E1 E2 E3. exists 1%nat, st2, [].
    rewrite E1, E2, E3, Hx, Hs, Hh, app_nil_r.
    repeat split; auto; lia. }
  destruct (thrown (relayer k)) as [e|]; [|apply Hlast; reflexivity].
  unfold catchBlock.
  destruct (getRelayerBackoffMs e) as [b|] eqn:Hb; [|apply Hlast; reflexivity].
  destruct (isQuotaExhausted e).
  { apply Hlast; cbn [addErrors setQuota trace quotaTracker markExhausted hourStartTime];
      rewrite ?executedBatches_app, ?sleeps_app; cbn; rewrite ?app_nil_r; reflexivity. }
  destruct (Nat.ltb_spec (S k) maxAttempts) as [Hmore|]; [|apply Hlast; reflexivity].
  destruct (IH (S k) (emit (EvSleep b) st1)) as [n [st' [pauses Hrest]]];
    [lia | exact Hmore |].
  destruct Hrest as [Hrun [Hn [Hx' [Hs' [Hlen [Hall Hh']]]]]].
  cbn [emit trace quotaTracker] in Hx', Hs', Hh'.
  rewrite executedBatches_app in Hx'. rewrite sleeps_app in Hs'.
  cbn [executedBatches sleeps flat_map] in Hx', Hs'. rewrite app_nil_r in Hx'.
  exists (S n), st', (b :: pauses)%list. split; [exact Hrun|].
  split; [lia|]. split; [|split; [|split; [|split]]].
  - rewrite Hx', Hx, <- app_assoc. reflexivity.
  - rewrite Hs', Hs, <- app_assoc. reflexivity.
  - cbn [List.length]. lia.
  - constructor; [|exact Hall]. apply (backoff_ge_5000 e b Hb).
  - rewrite Hh', Hh. reflexivity.
Qed.
End EnginePacing.

(** X4.  The engine always finishes a batch, and counts it exactly once:
    either the whole batch is added to the merged count and the error count
    is left alone, or the other way round. *)
Theorem batch_counted_once (cfg : Config) (batchNum : nat)
    (batch : list MergeCandidate) (relayer : nat -> AttemptOutcome)
    (st : CycleState) :
  exists st',
    executeBatch cfg batchNum batch relayer st = Some st'
    /\ ((mergedCount st' = (mergedCount st + List.length batch)%nat
         /\ errorCount st' = errorCount st)
        \/ (mergedCount st' = mergedCount st
            /\ errorCount st' = (errorCount st + List.length batch)%nat)).
Proof.
  destruct (executeBatch_total cfg batchNum batch relayer st) as [st' Hrun].
  exists st'. split; [exact Hrun|].
  apply (retryLoop_once cfg batchNum batch relayer maxAttempts 0 st st');
    [unfold maxAttempts; lia | exact Hrun].
Qed.

(** X5.  Between the [n] submissions of a batch the engine sleeps exactly
    [n - 1] times, each time for at least five seconds, and it never moves
    the start of the hour window. *)
Theorem submissions_paced (cfg : Config) (batchNum : nat)
    (batch : list MergeCandidate) (relayer : nat -> AttemptOutcome)
    (st : CycleState) :
  exists n st' pauses,
    executeBatch cfg batchNum batch relayer st = Some st'
    /\ (1 <= n <= maxAttempts)%nat
    /\ executedBatches (trace st') =
         (executedBatches (trace st) ++ repeat (batchNum, batch) n)%list
    /\ sleeps (trace st') = (sleeps (trace st) ++ pauses)%list
    /\ S (List.length pauses) = n
    /\ Forall (fun ms => 5000 <= ms) pauses
    /\ hourStartTime (quotaTracker st') = hourStartTime (quotaTracker st).
Proof.
  destruct (retryLoop_paced cfg batchNum batch relayer maxAttempts 0 st)
    as [n [st' [pauses [Hrun [Hn Hrest]]]]]; [lia | unfold maxAttempts; lia |].
  exists n, st', pauses. split; [exact Hrun|]. split; [lia | exact Hrest].
Qed.

(* ------------------------------------------------------------------ *)
(** ** Candidate scanner *)

Section ScanComposition.
Variable minimum : Z.
Variable read : MarketMetadata -> option TokenBalance.

Lemma appendScans_assoc (a b c : ScanResult) :
  appendScans (appendScans a b) c = appendScans a (appendScans b c).
Proof.
  unfold appendScans. cbn. rewrite app_assoc, !Nat.add_assoc. reflexivity.
Qed.

Lemma appendScans_empty_r (a : ScanResult) : appendScans a emptyScan = a.
Proof.
  destruct a. unfold appendScans. cbn. rewrite app_nil_r, !Nat.add_0_r. reflexivity.
Qed.

Lemma scanMarket_acc (acc : ScanResult) (m : MarketMetadata) :
  scanMarket minimum read acc m =
  appendScans acc (scanMarket minimum read emptyScan m).
Proof.
  unfold scanMarket. destruct (read m) as [b|].
  - destruct (_ =? 0); [|destruct (_ <? minimum)]; unfold appendScans; cbn;
      rewrite ?app_nil_r, ?Nat.add_0_r, ?Nat.add_1_r; reflexivity.
  - symmetry. apply appendScans_empty_r.
Qed.

Lemma scan_fold_acc (markets : list MarketMetadata) :
  forall acc,
    fold_left (scanMarket minimum read) markets acc =
    appendScans acc (scanMarkets minimum read markets).
Proof.
  unfold scanMarkets.
  induction markets as [|m ms IH]; intros acc; cbn [fold_left].
  - symmetry. apply appendScans_empty_r.
  - rewrite (IH (scanMarket minimum read acc m)),
            (IH (scanMarket minimum read emptyScan m)),
            (scanMarket_acc acc m).
    apply appendScans_assoc.
Qed.

Lemma scan_fold_skips_failed (markets : list MarketMetadata) :
  forall acc,
    fold_left (scanMarket minimum read)
      (filter (fun m => negb (readFailed read m)) markets) acc =
    fold_left (scanMarket minimum read) markets acc.
Proof.
  induction markets as [|m ms IH]; intros acc; cbn [filter fold_left]; [reflexivity|].
  destruct (readFailed read m) eqn:Hf; cbn [negb].
  - rewrite IH. f_equal. unfold readFailed in Hf. unfold scanMarket.
    destruct (read m); [discriminate | reflexivity].
  - cbn [fold_left]. apply IH.
Qed.
End ScanComposition.

(** X6.  Scanning a list of descriptors in two parts and putting the two
    results side by side gives the scan of the whole list: a descriptor is
    classified on its own balances only, and candidates keep the input
    order. *)
Theorem scan_app (minimum : Z) (read : MarketMetadata -> option TokenBalance)
    (first rest : list MarketMetadata) :
  scanMarkets minimum read (first ++ rest) =
  appendScans (scanMarkets minimum read first) (scanMarkets minimum read rest).
Proof.
  unfold scanMarkets at 1. rewrite fold_left_app.
  fold (scanMarkets minimum read first). apply scan_fold_acc.
Qed.

(** X7.  Descriptors whose balance read fails do not influence a scan:
    dropping them from the input beforehand gives the same candidates and the
    same skip counts. *)
Theorem scan_skips_failed_reads (minimum : Z)
    (read : MarketMetadata -> option TokenBalance)
    (markets : list MarketMetadata) :
  scanMarkets minimum read (filter (fun m => negb (readFailed read m)) markets)
  = scanMarkets minimum read markets.
Proof. apply scan_fold_skips_failed. Qed.

(* ------------------------------------------------------------------ *)
(** ** Batch numbers *)

(** X8.  With a positive batch size, the batch starting at index
    [k * BATCH_SIZE] is logged as batch [k + 1]; that number never exceeds
    the logged total, and the batch that reaches the end of the list carries
    the total itself. *)
Theorem batch_numbers_run_to_total (size n k : nat)
    (Hsize : (0 < size)%nat) (Hk : (k * size < n)%nat) :
  batchNumber size (k * size) = S k
  /\ (S k <= totalBatches size n)%nat
  /\ ((n <= k * size + size)%nat -> S k = totalBatches size n).
Proof.
  assert (Hn : (0 < n)%nat) by lia.
  destruct (totalBatches_ceil size Hsize n Hn) as [Hlo Hhi].
  unfold batchNumber. rewrite Nat.div_mul by lia.
  split; [lia|]. split; [nia|]. intros Hlast. nia.
Qed.

Lemma batch_numbers_run_to_total_witness :
  batchNumber 10 20 = 3%nat /\ totalBatches 10 23 = 3%nat.
Proof.
  destruct (batch_numbers_run_to_total 10 23 2) as [Hnum [_ Htot]];
    [lia | simpl; lia |].
  split; [exact Hnum|]. symmetry. apply Htot. simpl. lia.
Defined.

(* ------------------------------------------------------------------ *)
(** ** The cycle *)

(** X9.  A cycle whose opening quota check fails, whose market fetch
    throws, or whose scan finds nothing eligible submits nothing to the
    relay, logs no cycle summary, sleeps the merge interval once and leaves
    the tracker as the opening check left it. *)
Theorem cycle_idle_paths (cfg : Config) (env : CycleEnv) (q : QuotaTracker)
    (Hidle :
       fst (checkAndUpdateQuota (HOURLY_QUOTA_LIMIT cfg) (nowAtStart env) q) = false
       \/ fetchMarkets env = None
       \/ exists markets,
            fetchMarkets env = Some markets
            /\ candidates (scanMarkets (MIN_MERGE_AMOUNT cfg) (readBalances env)
                             markets) = []) :
  exists st,
    cycle cfg env q = Some st
    /\ executedBatches (trace st) = []
    /\ sleeps (trace st) = [MERGE_INTERVAL_MS cfg]
    /\ (forall m e, ~ In (EvCycleComplete m e) (trace st))
    /\ quotaTracker st
       = snd (checkAndUpdateQuota (HOURLY_QUOTA_LIMIT cfg) (nowAtStart env) q).
Proof.
  unfold cycle. rewrite checkQuota_eq.
  change (quotaTracker (startOfCycle q)) with q.
  destruct (fst (checkAndUpdateQuota (HOURLY_QUOTA_LIMIT cfg) (nowAtStart env) q))
    eqn:Hok.
  - destruct Hidle as [Hno | [Hfetch | [markets [Hfetch Hnone]]]]; [discriminate | |].
    + rewrite Hfetch. eexists. split; [reflexivity|]. cbn.
      repeat split; auto. intros m e Hin;
        repeat (destruct Hin as [Hin|Hin]; [discriminate Hin|]); exact Hin.
    + rewrite Hfetch, Hnone. cbn [List.length Nat.eqb].
      eexists. split; [reflexivity|]. cbn.
      repeat split; auto. intros m e Hin;
        repeat (destruct Hin as [Hin|Hin]; [discriminate Hin|]); exact Hin.
  - eexists. split; [reflexivity|]. cbn.
    repeat split; auto. intros m e Hin;
      repeat (destruct Hin as [Hin|Hin]; [discriminate Hin|]); exact Hin.
Qed.

Lemma cycle_idle_paths_witness :
  exists st,
    cycle sampleConfig failedReadEnv (initialQuota 0) = Some st
    /\ executedBatches (trace st) = []
    /\ sleeps (trace st) = [1800000].
Proof.
  destruct (cycle_idle_paths sampleConfig failedReadEnv (initialQuota 0))
    as [st [Hrun [Hx [Hs _]]]].
  - right. right. exists [unreadableMarket]. split; reflexivity.
  - exists st. split; [exact Hrun|]. split; [exact Hx | exact Hs].
Defined.

Section SubmissionBound.
Variable cfg : Config.
Variable env : CycleEnv.
Hypothesis Hsize : (0 < BATCH_SIZE cfg)%nat.

Lemma batchLoop_submission_bound (cands : list MergeCandidate) (fuel : nat) :
  forall i st e,
    batchLoop cfg env cands fuel i st = Some e ->
    (List.length (executedBatches (trace (endState e)))
     <= List.length (executedBatches (trace st))
        + maxAttempts * totalBatches (BATCH_SIZE cfg) (List.length cands - i))%nat.
Proof.
  induction fuel as [|fuel IH]; intros i st e Hrun.
  - cbn [batchLoop] in Hrun. destruct (i <? List.length cands)%nat; [discriminate|].
    inversion Hrun; subst. cbn [endState]. lia.
  - rewrite batchLoop_S, checkQuota_eq in Hrun.
    destruct (Nat.ltb_spec i (List.length cands)) as [Hi|Hi];
      [|inversion Hrun; subst; cbn [endState]; lia].
    destruct (fst (checkAndUpdateQuota _ _ _)).
    + cbv zeta in Hrun.
      destruct (buildBatch (encoder env) _).
      2:{ inversion Hrun; subst. cbn [endState emit setQuota trace].
          rewrite !executedBatches_app, !length_app. cbn. lia. }
      destruct (executeBatch cfg _ _ _ _) as [st2|] eqn:Hexec; [|discriminate].
      match type of Hexec with
      | executeBatch _ ?n ?b ?r ?s = _ =>
          destruct (retryLoop_counted cfg n b r maxAttempts 0 s)
            as [k [st2' [Hexec' [Hn [_ [Hx _]]]]]]; [lia|]
      end.
      unfold executeBatch in Hexec. rewrite Hexec in Hexec'. inversion Hexec'; subst st2'.
      cbn [emit setQuota trace] in Hx. rewrite !executedBatches_app in Hx.
      cbn [executedBatches flat_map] in Hx. rewrite !app_nil_r in Hx.
      apply IH in Hrun.
      assert (Hsame : executedBatches
                (trace (if (i + BATCH_SIZE cfg <? List.length cands)%nat
                        then emit (EvSleep (REQUEST_DELAY_MS cfg)) st2 else st2))
              = executedBatches (trace st2)).
      { destruct (i + BATCH_SIZE cfg <? List.length cands)%nat; [|reflexivity].
        cbn [emit trace]. rewrite executedBatches_app. cbn. apply app_nil_r. }
      rewrite Hsame, Hx, length_app, repeat_length in Hrun.
      rewrite (totalBatches_step (BATCH_SIZE cfg) Hsize (List.length cands - i)) by lia.
      replace (List.length cands - i - BATCH_SIZE cfg)%nat
        with (List.length cands - (i + BATCH_SIZE cfg))%nat by lia.
      lia.
    + inversion Hrun; subst. cbn [endState setQuota trace].
      rewrite executedBatches_app, length_app. cbn. lia.
Qed.
End SubmissionBound.

(** X10.  With a positive batch size a cycle always comes to its end, its
    last action is the merge-interval sleep, and over [n] eligible
    candidates it sends at most [maxAttempts * ceil(n / BATCH_SIZE)]
    submissions to the relay. *)
Theorem cycle_submission_bound (cfg : Config) (env : CycleEnv) (q : QuotaTracker)
    (Hsize : (0 < BATCH_SIZE cfg)%nat) :
  exists st before,
    cycle cfg env q = Some st
    /\ trace st = (before ++ [EvSleep (MERGE_INTERVAL_MS cfg)])%list
    /\ (forall markets, fetchMarkets env = Some markets ->
        (List.length (executedBatches (trace st))
         <= maxAttempts
            * totalBatches (BATCH_SIZE cfg)
                (List.length
                   (candidates (scanMarkets (MIN_MERGE_AMOUNT cfg)
                                  (readBalances env) markets))))%nat).
Proof.
  unfold cycle. rewrite checkQuota_eq.
  destruct (fst (checkAndUpdateQuota _ _ _)).
  2:{ eexists _, _. split; [reflexivity|]. split; [reflexivity|].
      intros markets _. cbn. lia. }
  destruct (fetchMarkets env) as [markets|].
  2:{ eexists _, _. split; [reflexivity|]. split; [reflexivity|]. discriminate. }
  set (r := scanMarkets (MIN_MERGE_AMOUNT cfg) (readBalances env) markets).
  destruct (List.length (candidates r) =? 0)%nat.
  { eexists _, _. split; [reflexivity|]. split; [reflexivity|].
    intros ms Hms. inversion Hms; subst ms. cbn. lia. }
  match goal with
  | |- context [batchLoop cfg env ?c ?f 0%nat ?s] =>
      destruct (batchLoop_total cfg Hsize env c f 0%nat s) as [st3 Hloop]; [lia|]
  end.
  rewrite Hloop.
  apply (batchLoop_submission_bound cfg env Hsize) in Hloop.
  destruct st3 as [st3|st3]; cbn [endState] in Hloop;
    (eexists _, _; split; [reflexivity|]; split; [reflexivity|]);
    intros ms Hms; inversion Hms; subst ms; fold r;
    cbn [emit setQuota startOfCycle trace] in *;
    rewrite !executedBatches_app; rewrite !executedBatches_app in Hloop;
    cbn [executedBatches flat_map app List.length] in *;
    rewrite !app_nil_r; rewrite Nat.sub_0_r in Hloop; lia.
Qed.

Lemma cycle_submission_bound_witness :
  exists st,
    cycle singleConfig rolloverEnv (initialQuota 0) = Some st
    /\ (List.length (executedBatches (trace st)) <= 6)%nat.
Proof.
  destruct (cycle_submission_bound singleConfig rolloverEnv (initialQuota 0))
    as [st [before [Hrun [_ Hbound]]]].
  - simpl. lia.
  - exists st. split; [exact Hrun|].
    apply (Hbound [heldMarket; otherMarket]). reflexivity.
Defined.

(* ------------------------------------------------------------------ *)
(** ** Building the transactions of a batch *)

Section BuildProperties.
Variable encode : string -> string -> string -> list Z -> Z -> option string.

Lemma build_fold_thrown (batch : list MergeCandidate) :
  fold_left (buildStep encode) batch None = None.
Proof. induction batch as [|c cs IH]; [reflexivity | exact IH]. Qed.

(** When no pass throws, every pass has pushed one transaction and one
    name. *)
Lemma build_fold_some (batch : list MergeCandidate) :
  forall txs names txs' names',
    fold_left (buildStep encode) batch (Some (txs, names)) = Some (txs', names') ->
    exists added,
      txs' = (txs ++ added)%list
      /\ names' = (names ++ map (fun c => marketName (market c)) batch)%list
      /\ map (fun t => Some (tx_data t)) added
         = map (fun c => encode USDC_ADDRESS PARENT_COLLECTION_ID
                           (conditionId (market c)) PARTITION (minBalance c)) batch
      /\ Forall (fun t => tx_to t = CTF_ADDRESS /\ tx_value t = "0"%string) added.
Proof.
  induction batch as [|c cs IH]; intros txs names txs' names' Hrun;
    cbn [fold_left] in Hrun.
  - inversion Hrun; subst. exists []. rewrite !app_nil_r. cbn. auto.
  - cbn [buildStep] in Hrun.
    destruct (encode USDC_ADDRESS PARENT_COLLECTION_ID (conditionId (market c))
                PARTITION (minBalance c)) as [data|] eqn:Henc.
    2:{ rewrite build_fold_thrown in Hrun. discriminate. }
    destruct (IH _ _ _ _ Hrun) as [added [-> [-> [Hdata Hall]]]].
    exists ({| tx_to := CTF_ADDRESS; tx_data := data; tx_value := "0" |} :: added).
    rewrite <- !app_assoc. cbn [app map tx_data].
    split; [reflexivity|]. split; [reflexivity|].
    split; [rewrite Henc, Hdata; reflexivity|].
    constructor; [cbn; auto | exact Hall].
Qed.

(** The building throws exactly when one of the encodings does. *)
Lemma build_fold_none (batch : list MergeCandidate) :
  forall txs names,
    fold_left (buildStep encode) batch (Some (txs, names)) = None
    <-> exists c, In c batch
                  /\ encode USDC_ADDRESS PARENT_COLLECTION_ID
                       (conditionId (market c)) PARTITION (minBalance c) = None.
Proof.
  induction batch as [|c cs IH]; intros txs names; cbn [fold_left].
  - split; [discriminate | intros [c [[] _]]].
  - cbn [buildStep].
    destruct (encode USDC_ADDRESS PARENT_COLLECTION_ID (conditionId (market c))
                PARTITION (minBalance c)) as [data|] eqn:Henc.
    + rewrite IH. split; intros [c' [Hin Hnone]].
      * exists c'. split; [right; exact Hin | exact Hnone].
      * destruct Hin as [<-|Hin]; [congruence|]. exists c'. auto.
    + rewrite build_fold_thrown. split; [|reflexivity].
      intros _. exists c. split; [left; reflexivity | exact Henc].
Qed.


Lemma substring_prefix (n : nat) :
  forall s, (String.length (substring 0 n s) <= n)%nat
            /\ prefix (substring 0 n s) s = true.
Proof.
  induction n as [|n IH]; intros [|c s]; cbn; try (split; [lia | reflexivity]).
  destruct (IH s) as [Hlen Hpre]. rewrite Hpre.
  split; [lia|]. destruct (ascii_dec c c); [reflexivity | congruence].
Qed.
End BuildProperties.


Section Headroom.
Variable cfg : Config.
Variable env : CycleEnv.
Hypothesis Hsize : (0 < BATCH_SIZE cfg)%nat.
Hypothesis Hquiet : forall n k, ~ reportsExhausted (relay env n k).


End Headroom.



(* ------------------------------------------------------------------ *)
(** ** Metadata source and Redis client *)

Section FetchProperties.
Variable JSON_parse : string -> option RedisClient.ParsedMetadata.




End FetchProperties.


Section RedisProperties.
Variable JSON_parse : string -> option RedisClient.ParsedMetadata.
Variable hgetall : nat -> string -> option (list (string * string)).

Lemma getRedisClient_keeps (s : RedisClient.RedisState) :
  OneConnection s -> OneConnection (snd (RedisClient.getRedisClient s)).
Proof.
  unfold OneConnection, RedisClient.getRedisClient.
  destruct (RedisClient.redisClient s) as [c|] eqn:E; cbn; [rewrite E; auto|].
  intros ->. auto.
Qed.

Lemma call_keeps (s : RedisClient.RedisState) (c : RedisClient.Call) :
  OneConnection s -> OneConnection (RedisClient.call JSON_parse hgetall s c).
Proof.
  intros Hs. destruct c as [|q|asset]; cbn [RedisClient.call].
  - apply getRedisClient_keeps, Hs.
  - unfold OneConnection, RedisClient.closeRedis in *.
    destruct (RedisClient.redisClient s) as [c|] eqn:E; [destruct q|]; cbn [snd];
      [cbn; lia | rewrite E; exact Hs | rewrite E; exact Hs].
  - unfold RedisClient.fetchMarkets.
    pose proof (getRedisClient_keeps s Hs) as H1.
    destruct (RedisClient.getRedisClient s) as [redis s1]. cbn [snd] in H1.
    destruct (hgetall redis _); exact H1.
Qed.

Lemma calls_keep (cs : list RedisClient.Call) :
  forall s, OneConnection s ->
            OneConnection (fold_left (RedisClient.call JSON_parse hgetall) cs s).
Proof.
  induction cs as [|c cs IH]; intros s Hs; cbn [fold_left]; [exact Hs|].
  apply IH, call_keeps, Hs.
Qed.
End RedisProperties.

(** X13.  However [getRedisClient], [closeRedis] and [fetchMarkets] are
    called, and whether the [quit()] of a close resolves or rejects, at most
    one Redis connection is open at any time, and it is the one opened last;
    asking for the client again returns the same one without opening a
    connection.  A close whose [quit()] resolves returns and leaves no
    client; a close whose [quit()] rejects throws and leaves the client in
    place; a close without a client returns and changes nothing; closing
    twice closes once. *)
Theorem redis_single_connection
    (JSON_parse : string -> option RedisClient.ParsedMetadata)
    (hgetall : nat -> string -> option (list (string * string)))
    (cs : list RedisClient.Call) :
  let s := RedisClient.calls JSON_parse hgetall cs in
  OneConnection s
  /\ RedisClient.getRedisClient (snd (RedisClient.getRedisClient s))
     = RedisClient.getRedisClient s
  /\ fst (RedisClient.closeRedis true s) = true
  /\ RedisClient.redisClient (snd (RedisClient.closeRedis true s)) = None
  /\ (RedisClient.redisClient s <> None ->
      RedisClient.closeRedis false s = (false, s))
  /\ (RedisClient.redisClient s = None ->
      forall q, RedisClient.closeRedis q s = (true, s))
  /\ (forall q,
        snd (RedisClient.closeRedis q (snd (RedisClient.closeRedis q s)))
        = snd (RedisClient.closeRedis q s)).
Proof.
  cbv zeta. set (s := RedisClient.calls JSON_parse hgetall cs).
  split; [apply calls_keep; reflexivity|].
  clearbody s. destruct s as [[c|] o cl]; cbn.
  - repeat split; try reflexivity; try discriminate. intros []; reflexivity.
  - repeat split; try reflexivity; try congruence.
Qed.

Lemma redis_single_connection_witness :
  RedisClient.closeRedis false
    (RedisClient.calls RedisClient.sampleParse (fun _ _ => None)
       [RedisClient.CallFetch "BTC"; RedisClient.CallClose false])
  = (false,
     {| RedisClient.redisClient := Some 0%nat; RedisClient.opened := 1;
        RedisClient.closed := 0 |}).
Proof.
  destruct (redis_single_connection RedisClient.sampleParse (fun _ _ => None)
              [RedisClient.CallFetch "BTC"; RedisClient.CallClose false])
    as [_ [_ [_ [_ [Hrejects _]]]]].
  rewrite Hrejects; [reflexivity | discriminate].
Defined.

(* ------------------------------------------------------------------ *)
(** ** Formatting an amount *)

Section Formatting.
Local Open Scope string_scope.

Lemma append_length (s t : string) :
  String.length (s ++ t) = (String.length s + String.length t)%nat.
Proof. induction s as [|c s IH]; cbn; [reflexivity | rewrite IH; reflexivity]. Qed.

Lemma append_assoc (s t u : string) : (s ++ t) ++ u = s ++ (t ++ u).
Proof. induction s as [|c s IH]; cbn; [reflexivity | rewrite IH; reflexivity]. Qed.

Lemma fill_snoc (n : nat) (c : ascii) :
  fill n c ++ String c "" = String c (fill n c).
Proof. induction n as [|n IH]; cbn; [reflexivity | rewrite IH; reflexivity]. Qed.

Lemma padStart_snoc (k : nat) (c0 c : ascii) (s : string) :
  (String.length s <= k)%nat ->
  padStart (S k) c0 (s ++ String c "") = padStart k c0 s ++ String c "".
Proof.
  intros Hlen. unfold padStart. rewrite append_length. cbn [String.length].
  destruct (Nat.ltb_spec (String.length s) k);
    destruct (Nat.ltb_spec (String.length s + 1) (S k)); try lia.
  - replace (S k - (String.length s + 1))%nat with (k - String.length s)%nat by lia.
    apply eq_sym, append_assoc.
  - reflexivity.
Qed.

Lemma fixedDigits_zero (k : nat) : fixedDigits k 0 = fill k "0".
Proof.
  induction k as [|k IH]; cbn [fixedDigits fill]; [reflexivity|].
  change (0 / 10) with 0. rewrite IH. change (digitChar (0 mod 10)) with "0"%char.
  apply fill_snoc.
Qed.

(** Padding the digits of [n] to [k] places gives [n] written with [k]
    digits, when [n] has at most [k] digits. *)
Lemma padStart_digits (k : nat) :
  forall n fuel,
    0 <= n < 10 ^ Z.of_nat (S k) -> n < 10 ^ Z.of_nat (S fuel) ->
    padStart (S k) "0" (digitsOf (S fuel) n) = fixedDigits (S k) n
    /\ (String.length (digitsOf (S fuel) n) <= S k)%nat.
Proof.
  induction k as [|k IH]; intros n fuel Hn Hfuel.
  - change (10 ^ Z.of_nat 1) with 10 in Hn. cbn [digitsOf fixedDigits].
    destruct (Z.ltb_spec n 10); [|lia].
    rewrite Z.mod_small by lia. split; [reflexivity | cbn; lia].
  - cbn [digitsOf]. destruct (Z.ltb_spec n 10) as [Hsmall|Hbig].
    + split; [|cbn; lia].
      change (fixedDigits (S (S k)) n)
        with (fixedDigits (S k) (n / 10) ++ String (digitChar (n mod 10)) "").
      rewrite (Z.div_small n 10), (Z.mod_small n 10), fixedDigits_zero by lia.
      unfold padStart. cbn [String.length Nat.ltb Nat.leb Nat.sub]. reflexivity.
    + assert (Hdiv : 0 <= n / 10 < 10 ^ Z.of_nat (S k)).
      { rewrite (Nat2Z.inj_succ (S k)), Z.pow_succ_r in Hn by lia.
        split; [apply Z.div_pos; lia | apply Z.div_lt_upper_bound; lia]. }
      destruct fuel as [|fuel].
      { change (10 ^ Z.of_nat 1) with 10 in Hfuel. lia. }
      assert (Hdivf : n / 10 < 10 ^ Z.of_nat (S fuel)).
      { rewrite (Nat2Z.inj_succ (S fuel)), Z.pow_succ_r in Hfuel by lia.
        apply Z.div_lt_upper_bound; lia. }
      destruct (IH (n / 10) fuel Hdiv Hdivf) as [Hpad Hlen].
      split.
      * rewrite padStart_snoc by exact Hlen. rewrite Hpad. reflexivity.
      * rewrite append_length. cbn [String.length]. lia.
Qed.

Lemma digitFuel_enough (n : Z) : 0 <= n -> n < 10 ^ Z.of_nat (digitFuel n).
Proof.
  intros Hn. unfold digitFuel.
  rewrite Nat2Z.inj_succ, Z2Nat.id by apply Z.log2_nonneg.
  destruct (Z.eq_dec n 0) as [->|Hne]; [cbn; lia|].
  destruct (Z.log2_spec n ltac:(lia)) as [_ Hlt].
  eapply Z.lt_le_trans; [exact Hlt|].
  apply Z.pow_le_mono_l. pose proof (Z.log2_nonneg n). lia.
Qed.
(** Reading the decimal digits back gives the number. *)
Lemma numberFrom_snoc (s : string) :
  forall acc c,
    numberFrom acc (s ++ String c "")
    = 10 * numberFrom acc s + (Z.of_nat (nat_of_ascii c) - 48).
Proof.
  induction s as [|d s IH]; intros acc c; cbn [append numberFrom]; [reflexivity|].
  apply IH.
Qed.

Lemma digitChar_value (d : Z) :
  0 <= d <= 9 -> Z.of_nat (nat_of_ascii (digitChar d)) - 48 = d.
Proof.
  intros Hd. unfold digitChar. rewrite nat_ascii_embedding by lia. lia.
Qed.

Lemma digitsOf_S (fuel : nat) (n : Z) :
  digitsOf (S fuel) n =
  if (n <? 10)%Z then String (digitChar n) ""
  else digitsOf fuel (n / 10) ++ String (digitChar (n mod 10)) "".
Proof. reflexivity. Qed.

Lemma Number_digitsOf (fuel : nat) :
  forall n, 0 <= n < 10 ^ Z.of_nat (S fuel) -> Number (digitsOf (S fuel) n) = n.
Proof.
  unfold Number.
  induction fuel as [|fuel IH]; intros n Hn; rewrite digitsOf_S.
  - change (10 ^ Z.of_nat 1) with 10 in Hn. destruct (Z.ltb_spec n 10); [|lia].
    cbn [numberFrom]. rewrite digitChar_value by lia. lia.
  - destruct (Z.ltb_spec n 10).
    + cbn [numberFrom]. rewrite digitChar_value by lia. lia.
    + rewrite numberFrom_snoc, digitChar_value
        by (pose proof (Z.mod_pos_bound n 10 ltac:(lia)); lia).
      rewrite IH.
      * pose proof (Z.div_mod n 10 ltac:(lia)). lia.
      * rewrite (Nat2Z.inj_succ (S fuel)), Z.pow_succ_r in Hn by lia.
        split; [apply Z.div_pos; lia | apply Z.div_lt_upper_bound; lia].
Qed.

Lemma Number_toStringBigInt (n : Z) : 0 <= n -> Number (toStringBigInt n) = n.
Proof.
  intros Hn. unfold toStringBigInt. destruct (Z.ltb_spec n 0); [lia|].
  apply Number_digitsOf. split; [exact Hn | apply digitFuel_enough, Hn].
Qed.
End Formatting.

(** X14.  For a non-negative amount, [formatTokenAmount] prints the whole
    USDC, a point, and the first two of the six decimals: the hundredths are
    cut off, never rounded, and always shown with two digits. *)
Theorem formatTokenAmount_truncates (amount : Z) (Hnonneg : 0 <= amount) :
  formatTokenAmount amount =
  (toStringBigInt (amount / 1000000) ++ "."
   ++ String (digitChar (amount / 100000 mod 10))
        (String (digitChar (amount / 10000 mod 10)) EmptyString)
   ++ " USDC")%string.
Proof.
  unfold formatTokenAmount. cbv zeta.
  rewrite Z.quot_div_nonneg, Z.rem_mod_nonneg by lia.
  set (f := amount mod 1000000).
  assert (Hf : 0 <= f < 1000000) by (apply Z.mod_pos_bound; lia).
  unfold toStringBigInt at 2. destruct (Z.ltb_spec f 0); [lia|].
  destruct (padStart_digits 5 f (Z.to_nat (Z.log2 f))) as [Hpad _].
  - change (10 ^ Z.of_nat 6) with 1000000. exact Hf.
  - apply (digitFuel_enough f). lia.
  - fold (digitFuel f) in Hpad. rewrite Hpad.
    cbn [fixedDigits append substring].
    replace (f / 10 / 10 / 10 / 10 / 10 mod 10) with (amount / 100000 mod 10)
      by (unfold f; Z.to_euclidean_division_equations; lia).
    replace (f / 10 / 10 / 10 / 10 mod 10) with (amount / 10000 mod 10)
      by (unfold f; Z.to_euclidean_division_equations; lia).
    reflexivity.
Qed.

Lemma formatTokenAmount_truncates_witness :
  formatTokenAmount 1999999 = "1.99 USDC"%string
  /\ formatTokenAmount 9999 = "0.00 USDC"%string.
Proof.
  split.
  - rewrite (formatTokenAmount_truncates 1999999) by lia. vm_compute. reflexivity.
  - rewrite (formatTokenAmount_truncates 9999) by lia. vm_compute. reflexivity.
Defined.

(* ------------------------------------------------------------------ *)
(** ** The private key *)

Lemma append_0x_length (s : string) :
  String.length ("0x" ++ s) = S (S (String.length s)).
Proof. reflexivity. Qed.

(** X15.  Provided [isHex] accepts exactly "0x" followed by hexadecimal
    digits: a key that [decryptPrivateKey] returns is always "0x" followed by
    64 hexadecimal digits, and it is the trimmed plaintext itself or, when
    that was 64 bare hexadecimal digits, the plaintext with "0x" put in
    front; a non-empty plaintext that trims to 64 hexadecimal digits is
    always accepted; an empty plaintext is always refused. *)
Theorem decrypted_key_shape
    (decrypt : string -> string -> option string) (trim : string -> string)
    (isHex : string -> bool) (encrypted password : string)
    (Hhex : forall s, isHex s = isHexStrict s) :
  (forall key,
     decryptPrivateKey decrypt trim isHex encrypted password = KeyOk key ->
     exists plain digits,
       decrypt encrypted password = Some plain
       /\ key = ("0x" ++ digits)%string
       /\ String.length digits = 64%nat /\ allHex digits = true
       /\ (trim plain = key \/ trim plain = digits))
  /\ (forall plain,
        decrypt encrypted password = Some plain -> plain <> EmptyString ->
        is64Hex (trim plain) = true ->
        decryptPrivateKey decrypt trim isHex encrypted password
        = KeyOk ("0x" ++ trim plain)%string)
  /\ (decrypt encrypted password = Some EmptyString ->
      decryptPrivateKey decrypt trim isHex encrypted password
      = KeyThrows FailedToDecrypt).
Proof.
  unfold decryptPrivateKey. split; [|split].
  - intros key Hkey.
    destruct (decrypt encrypted password) as [[|c plain]|] eqn:Hd; try discriminate.
    remember (trim (String c plain)) as t eqn:Ht.
    exists (String c plain).
    destruct (is64Hex t) eqn:H64.
    + rewrite Hhex in Hkey. cbn [isHexStrict append] in Hkey.
      unfold is64Hex in H64. apply andb_true_iff in H64 as [Hlen Hall].
      apply Nat.eqb_eq in Hlen. rewrite Hall in Hkey.
      cbn [negb orb String.length] in Hkey. rewrite Hlen in Hkey. cbn in Hkey.
      inversion Hkey; subst key. exists t. repeat split; auto.
    + rewrite Hhex in Hkey.
      destruct (isHexStrict t) eqn:Hstrict; [|discriminate].
      destruct (Nat.eqb_spec (String.length t) 66) as [Hlen|]; [|discriminate].
      cbn in Hkey. inversion Hkey; subst key.
      unfold isHexStrict in Hstrict.
      destruct t as [|a [|b digits]]; try discriminate.
      destruct a as [[] [] [] [] [] [] [] []]; try discriminate Hstrict.
      destruct b as [[] [] [] [] [] [] [] []]; try discriminate Hstrict.
      exists digits. cbn [String.length] in Hlen.
      repeat split; auto. lia.
  - intros plain Hd Hne H64. rewrite Hd.
    destruct plain as [|c plain]; [congruence|].
    rewrite H64, Hhex. cbn [isHexStrict append].
    unfold is64Hex in H64. apply andb_true_iff in H64 as [Hlen Hall].
    apply Nat.eqb_eq in Hlen. rewrite Hall. cbn [negb orb String.length].
    rewrite Hlen. reflexivity.
  - intros ->. reflexivity.
Qed.

Lemma decrypted_key_shape_witness :
  decryptPrivateKey (fun _ _ => Some sampleBareKey) (fun s => s) isHexStrict
    "ciphertext" "password"
  = KeyOk ("0x" ++ sampleBareKey)%string.
Proof.
  apply (decrypted_key_shape (fun _ _ => Some sampleBareKey) (fun s => s)
           isHexStrict "ciphertext" "password").
  - intros s. reflexivity.
  - reflexivity.
  - discriminate.
  - vm_compute. reflexivity.
Defined.

(** X16.  The building of the transactions of a batch throws exactly when
    the encoding of one of its candidates throws, and then nothing of the
    batch is left, not even the transactions built before.  When it does
    not throw there is one transaction per candidate, in order: each goes to
    the conditional-tokens contract with value "0" and carries the encoding
    of a merge of that candidate's condition id for that candidate's amount,
    with the fixed collateral, parent collection and partition; the names
    built alongside are as many.  A market without a slug is named by a
    prefix of at most ten characters of its condition id. *)
Theorem buildBatch_one_per_candidate
    (encode : string -> string -> string -> list Z -> Z -> option string)
    (batch : list MergeCandidate) :
  (buildBatch encode batch = None
   <-> exists c, In c batch
                 /\ encode USDC_ADDRESS PARENT_COLLECTION_ID
                      (conditionId (market c)) PARTITION (minBalance c) = None)
  /\ (forall txs names,
        buildBatch encode batch = Some (txs, names) ->
        map (fun t => Some (tx_data t)) txs
        = map (fun c => encode USDC_ADDRESS PARENT_COLLECTION_ID
                          (conditionId (market c)) PARTITION (minBalance c)) batch
        /\ Forall (fun t => tx_to t = CTF_ADDRESS /\ tx_value t = "0"%string) txs
        /\ names = map (fun c => marketName (market c)) batch
        /\ List.length txs = List.length batch
        /\ List.length names = List.length batch)
  /\ (forall c, In c batch ->
        marketSlug (market c) = None \/ marketSlug (market c) = Some EmptyString ->
        (String.length (marketName (market c)) <= 10)%nat
        /\ prefix (marketName (market c)) (conditionId (market c)) = true).
Proof.
  split; [apply build_fold_none|]. split.
  - intros txs names Hrun.
    apply build_fold_some in Hrun as [added [-> [-> [Hdata Hall]]]].
    cbn [app]. split; [exact Hdata|]. split; [exact Hall|]. split; [reflexivity|].
    split; [|apply length_map].
    rewrite <- (length_map (fun t => Some (tx_data t))), Hdata. apply length_map.
  - intros c _ Hslug. unfold marketName.
    destruct Hslug as [-> | ->]; cbn [orElse]; apply substring_prefix.
Qed.

Lemma buildBatch_one_per_candidate_witness :
  buildBatch bytes32Encoder [heldCandidate; heldCandidate]
  = Some ([ {| tx_to := CTF_ADDRESS;
               tx_data := ("mergePositions " ++ heldConditionId)%string;
               tx_value := "0" |};
            {| tx_to := CTF_ADDRESS;
               tx_data := ("mergePositions " ++ heldConditionId)%string;
               tx_value := "0" |} ],
          [ "0x11111111"%string; "0x11111111"%string ])
  /\ buildBatch bytes32Encoder
       [heldCandidate; {| market := malformedMarket; minBalance := 15 |}] = None.
Proof.
  split; [vm_compute; reflexivity|].
  apply (proj1 (buildBatch_one_per_candidate bytes32Encoder
                  [heldCandidate; {| market := malformedMarket; minBalance := 15 |}])).
  exists {| market := malformedMarket; minBalance := 15 |}.
  split; [right; left; reflexivity | vm_compute; reflexivity].
Defined.

(* ------------------------------------------------------------------ *)
(** ** Shutdown *)

Lemma signals_after_shutdown (quits : list bool) :
  forall st, isShuttingDown st = true -> signals quits st = st.
Proof.
  induction quits as [|q quits IH]; intros st Hst; cbn [signals]; [reflexivity|].
  unfold shutdown. rewrite Hst. apply IH, Hst.
Qed.

(** X17.  However many termination signals a running worker receives, the
    shutdown path runs once, on the first; the signals after it change
    nothing.  When no Redis connection is open or the [quit()] of the open
    one resolves, the connection is closed exactly once, no client is left
    and the process exits with status 0.  When a connection is open and its
    [quit()] rejects, the handler throws: [process.exit(0)] is not reached
    and the client stays in place. *)
Theorem shutdown_runs_once (q : bool) (quits : list bool) (st : ProcessState)
    (Hrunning : isShuttingDown st = false) :
  signals (q :: quits) st = shutdown q st
  /\ isShuttingDown (signals (q :: quits) st) = true
  /\ (RedisClient.redisClient (redis st) = None \/ q = true ->
      exitStatus (signals (q :: quits) st) = Some 0
      /\ RedisClient.redisClient (redis (signals (q :: quits) st)) = None
      /\ RedisClient.closed (redis (signals (q :: quits) st))
         = (RedisClient.closed (redis st)
            + match RedisClient.redisClient (redis st) with
              | Some _ => 1
              | None => 0
              end)%nat)
  /\ (RedisClient.redisClient (redis st) <> None -> q = false ->
      exitStatus (signals (q :: quits) st) = exitStatus st
      /\ redis (signals (q :: quits) st) = redis st).
Proof.
  cbn [signals].
  assert (Hdown : isShuttingDown (shutdown q st) = true).
  { unfold shutdown. rewrite Hrunning.
    destruct (RedisClient.closeRedis q (redis st)) as [[] r]; reflexivity. }
  rewrite (signals_after_shutdown quits (shutdown q st) Hdown).
  split; [reflexivity|]. split; [exact Hdown|].
  unfold shutdown. rewrite Hrunning. unfold RedisClient.closeRedis.
  destruct (RedisClient.redisClient (redis st)) as [c|] eqn:E.
  - split.
    + intros [Hnone | ->]; [discriminate|]. cbn. repeat split; lia.
    + intros _ ->. cbn. split; reflexivity.
  - split.
    + intros _. cbn. rewrite E. repeat split; lia.
    + intros Hsome. congruence.
Qed.

Lemma shutdown_runs_once_witness :
  (RedisClient.closed (redis (signals [true; false; true] runningWorker)) = 1%nat
   /\ RedisClient.redisClient (redis (signals [true; false; true] runningWorker)) = None
   /\ exitStatus (signals [true; false; true] runningWorker) = Some 0)
  /\ (exitStatus (signals [false; true] runningWorker) = None
      /\ RedisClient.redisClient (redis (signals [false; true] runningWorker))
         = Some 0%nat).
Proof.
  split.
  - destruct (shutdown_runs_once true [false; true] runningWorker)
      as [_ [_ [Hresolves _]]]; [reflexivity|].
    destruct Hresolves as [Hexit [Hnone Hclosed]]; [right; reflexivity|].
    split; [rewrite Hclosed; reflexivity|]. split; [exact Hnone | exact Hexit].
  - destruct (shutdown_runs_once false [true] runningWorker)
      as [_ [_ [_ Hrejects]]]; [reflexivity|].
    destruct Hrejects as [Hexit Hredis]; [discriminate | reflexivity|].
    split; [rewrite Hexit; reflexivity | rewrite Hredis; reflexivity].
Defined.
